(** * Gess rules engine (GessGame.py): a shallow embedding and its properties

    The Python program keeps a 20x20 board as a list of lists of one-character
    strings, selects a 3x3 piece around a centre, computes the centres it may
    slide to, checks the sliding path, relocates the nine cells and looks for
    the two rings.  The embedding below follows the three classes of the
    source (Board, Piece, GessGame) method by method.

    Conventions of the embedding:
    - a cell is one of the three strings the program ever stores
      (" ", "B", "W");
    - Python list indexing is written out: a negative index counts from the
      end and an index outside [-len, len) raises IndexError;
    - exceptions and non-termination are explicit in the [result] type;
    - the board object is shared by Board, Piece and GessGame and mutated in
      place; since every access goes through that single object, the
      embedding threads the grid value through the calls;
    - the order in which CPython iterates the set [_area] is not fixed by the
      language: it is a parameter ([area_order]) of the embedding;
    - the builtin [int] is a parameter ([py_int]) as well. *)

From Stdlib Require Import ZArith Lia Ascii String.
From stdpp Require Import base tactics option list gmap sets strings numbers.

Local Open Scope Z_scope.

(** ** Results of Python calls *)

Inductive exn := IndexError | KeyError | ValueError.

Inductive result (A : Type) : Type :=
  | Ok (a : A)
  | Raise (e : exn)
  | Diverge.
Arguments Ok {A} a.
Arguments Raise {A} e.
Arguments Diverge {A}.

#[global] Instance result_ret : MRet result := fun A a => Ok a.
#[global] Instance result_bind : MBind result := fun A B f m =>
  match m with
  | Ok a => f a
  | Raise e => Raise e
  | Diverge => Diverge
  end.

(** A [for] loop whose body may raise: the accumulator is the mutable state. *)
Fixpoint for_each {A S : Type} (body : S -> A -> result S) (s : S) (l : list A)
  : result S :=
  match l with
  | [] => Ok s
  | a :: l' => s' ← body s a; for_each body s' l'
  end.

(** ** Cells, coordinates and Python list indexing *)

Inductive Cell := Empty | Black | White.

#[global] Instance Cell_eq_dec : EqDecision Cell.
Proof. solve_decision. Defined.

#[global] Instance exn_eq_dec : EqDecision exn.
Proof. solve_decision. Defined.

Abbreviation coord := (Z * Z)%type.

Abbreviation Grid := (list (list Cell)).

(** [l[i]] *)
Definition py_getitem {A : Type} (l : list A) (i : Z) : result A :=
  let n := Z.of_nat (length l) in
  let j := if i <? 0 then i + n else i in
  if (j <? 0) || (n <=? j) then Raise IndexError
  else match l !! Z.to_nat j with
       | Some a => Ok a
       | None => Raise IndexError
       end.

(** [l[i] = v] *)
Definition py_setitem {A : Type} (l : list A) (i : Z) (v : A) : result (list A) :=
  let n := Z.of_nat (length l) in
  let j := if i <? 0 then i + n else i in
  if (j <? 0) || (n <=? j) then Raise IndexError
  else Ok (<[Z.to_nat j := v]> l).

(** [board[x][y]] *)
Definition board_get (board : Grid) (p : coord) : result Cell :=
  row ← py_getitem board p.1; py_getitem row p.2.

(** [board[x][y] = v]: the row object is updated in place. *)
Definition board_set (board : Grid) (p : coord) (v : Cell) : result Grid :=
  row ← py_getitem board p.1;
  row' ← py_setitem row p.2 v;
  py_setitem board p.1 row'.

(** [range(a, b)] for the small ranges of the program. *)
Definition py_range (a b : Z) : list Z :=
  (fun i => a + Z.of_nat i) <$> seq 0 (Z.to_nat (b - a)).

(** ** class Board *)

Module Board.

Definition black_start : list coord :=
  [(1, 2); (2, 2); (2, 1); (2, 3); (3, 2); (4, 1); (4, 3); (5, 2); (6, 1); (6, 3); (7, 1);
   (7, 2); (7, 3); (8, 1); (8, 2); (8, 3); (9, 1); (9, 2); (9, 3); (10, 1); (10, 2); (10, 3);
   (11, 1); (11, 3); (12, 1); (12, 2); (12, 3); (13, 1); (13, 3); (14, 2); (15, 1); (15, 3);
   (16, 2); (17, 1); (17, 2); (17, 3); (18, 2); (2, 6); (5, 6); (8, 6); (11, 6);
   (14, 6); (17, 6)].

(** [[[" " for i in range(20)] for j in range(20)]] *)
Definition blank : Grid := replicate 20 (replicate 20 Empty).

(** The fill loop of [__init__]; the white stone is written through the
    negative index [-coord[1] - 1]. *)
Definition fill (board : Grid) : result Grid :=
  for_each (fun b c => b1 ← board_set b (c.1, c.2) Black;
                       board_set b1 (c.1, - c.2 - 1) White)
           board black_start.

(** [self._board_area] after [__init__]. *)
Definition init : result Grid := fill blank.

(** [self._border] *)
Definition border : gset coord :=
  (list_to_set ((fun i => (0, i)) <$> py_range 0 20) ∪
   list_to_set ((fun i => (19, i)) <$> py_range 0 20)) ∪
  list_to_set ((fun i => (i, 0)) <$> py_range 0 20) ∪
  list_to_set ((fun i => (i, 19)) <$> py_range 0 20).

(** [self._locmap = dict(zip("abcdefghijklmnopqrst", range(20)))] *)
Definition locmap : gmap ascii Z :=
  list_to_map (zip (list_ascii_of_string "abcdefghijklmnopqrst") (py_range 0 20)).

End Board.

#[global] Instance Cell_countable : Countable Cell.
Proof.
  refine (inj_countable'
            (fun c => match c with Empty => 0%nat | Black => 1%nat | White => 2%nat end)
            (fun n => match n with 0%nat => Empty | 1%nat => Black | _ => White end) _).
  by intros [].
Defined.

(** ** class Piece *)

(** [range(-1, 2)] *)
Definition offsets : list Z := py_range (-1) 2.

(** The nine points of [{(x + i, y + j) for i in range(-1, 2) for j in range(-1, 2)}],
    in the order the comprehension produces them. *)
Definition area_cells (c : coord) : list coord :=
  i ← offsets; j ← offsets; [(c.1 + i, c.2 + j)].

Definition in_bounds (loc : coord) : bool :=
  (0 <? loc.1) && (loc.1 <? 20) && (0 <? loc.2) && (loc.2 <? 20).

Record Piece := mkPiece {
  _center : coord;
  _x_coord : Z;
  _y_coord : Z;
  _area : list coord;      (* the set, as the sequence its iteration yields *)
  _board : Grid;           (* the board object of the game *)
  _filled : gset coord;
  _unlimited : bool
}.

Inductive GameState := UNFINISHED | BLACK_WON | WHITE_WON.
Inductive Player := BLACK | WHITE.

#[global] Instance GameState_eq_dec : EqDecision GameState.
Proof. solve_decision. Defined.
#[global] Instance Player_eq_dec : EqDecision Player.
Proof. solve_decision. Defined.

Record GessGame := mkGame {
  _game_state : GameState;
  _current_player : Player;
  _game_board : Grid
}.

(** How one run of the inner [while] of [check_obstruction] ends. *)
Inductive walk_exit :=
  | ReturnTrue                 (* [return True] inside the loop *)
  | LoopDone (check : coord).  (* the loop condition failed; [check_x, check_y] as left *)

(** Iterations granted to a [while] loop before the embedding gives up
    ([Diverge]); the lemmas below show the loops of the program stay under it. *)
Definition loop_fuel : nat := 64.

Section Engine.

(** [int(s)]: [None] stands for ValueError. *)
Variable py_int : string -> option Z.

(** The order in which iterating the set [_area] built around a centre
    yields its points. *)
Variable area_order : coord -> list coord.

(** [Piece.__init__] *)
Definition Piece_init (center : coord) (game_board : Grid) : result Piece :=
  let x := center.1 in
  let y := center.2 in
  let area := area_order center in
  let board := game_board in
  filled ← for_each (fun (acc : gset coord) pos =>
                       v ← board_get board pos;
                       Ok (if decide (v ≠ Empty)
                           then {[ (pos.1 - x, pos.2 - y) ]} ∪ acc else acc))
                    ∅ area;
  c ← board_get board (x, y);
  Ok {| _center := center; _x_coord := x; _y_coord := y; _area := area;
        _board := board; _filled := filled ∖ {[ (0, 0) ]};
        _unlimited := bool_decide (c ≠ Empty) |}.

Definition get_area (p : Piece) : list coord := _area p.

Definition get_area_contents (p : Piece) : result (gset Cell) :=
  for_each (fun (types : gset Cell) point =>
              v ← board_get (_board p) point; Ok ({[ v ]} ∪ types))
           ∅ (_area p).

(** The [while] loop of the unlimited branch of [valid_moves]. *)
Fixpoint slide (fuel : nat) (loc pos : coord) (valid : gset coord)
  : result (gset coord) :=
  match fuel with
  | O => Diverge
  | S fuel' =>
      if in_bounds loc
      then let loc' := (loc.1 + pos.1, loc.2 + pos.2) in
           slide fuel' loc' pos ({[ loc' ]} ∪ valid)
      else Ok valid
  end.

(** One round of the [for] loop of the limited branch. *)
Definition three_steps (loc : coord) (valid : gset coord) (pos : coord)
  : gset coord :=
  let v1 := if in_bounds (loc.1 + pos.1, loc.2 + pos.2)
            then {[ (loc.1 + pos.1, loc.2 + pos.2) ]} ∪ valid else valid in
  let v2 := if in_bounds (loc.1 + 2 * pos.1, loc.2 + 2 * pos.2)
            then {[ (loc.1 + 2 * pos.1, loc.2 + 2 * pos.2) ]} ∪ v1 else v1 in
  if in_bounds (loc.1 + 3 * pos.1, loc.2 + 3 * pos.2)
  then {[ (loc.1 + 3 * pos.1, loc.2 + 3 * pos.2) ]} ∪ v2 else v2.

Definition valid_moves (p : Piece) : result (gset coord) :=
  if _unlimited p
  then for_each (fun valid pos => slide loop_fuel (_center p) pos valid)
                ∅ (elements (_filled p))
  else Ok (foldl (three_steps (_center p)) ∅ (elements (_filled p))).

(** [Piece.move]: returns the grid after the three loops and the key set of
    [mov_map]. *)
Definition move (p : Piece) (location : coord) : result (Grid * gset coord) :=
  let disp_x := location.1 - _x_coord p in
  let disp_y := location.2 - _y_coord p in
  let board := _board p in
  mov_map ← for_each (fun (m : gmap coord Cell) position =>
                        v ← board_get board position;
                        Ok (<[ (position.1 + disp_x, position.2 + disp_y) := v ]> m))
                     ∅ (_area p);
  board1 ← for_each (fun b position => board_set b position Empty) board (_area p);
  board2 ← for_each (fun b position =>
                       match mov_map !! (position.1 + disp_x, position.2 + disp_y) with
                       | Some v => board_set b (position.1 + disp_x, position.2 + disp_y) v
                       | None => Raise KeyError
                       end)
                    board1 (_area p);
  Ok (board2, dom mov_map).

(** ** class GessGame *)

Definition GessGame_init : result GessGame :=
  board ← Board.init;
  Ok {| _game_state := UNFINISHED; _current_player := BLACK; _game_board := board |}.

Definition get_game_state (g : GessGame) : GameState := _game_state g.

Definition resign_game (g : GessGame) : GessGame :=
  if decide (_current_player g = BLACK)
  then {| _game_state := WHITE_WON; _current_player := _current_player g;
          _game_board := _game_board g |}
  else {| _game_state := BLACK_WON; _current_player := _current_player g;
          _game_board := _game_board g |}.

(** The [if / elif / else] that turns a displacement into a shift. *)
Definition shift_of (disp : Z) : Z :=
  if 0 <? disp then 1 else if disp =? 0 then 0 else -1.

(** The inner [while] loop of [check_obstruction] for one [point];
    [check] and [scale] are the loop's variables. *)
Fixpoint walk (fuel : nat) (board_space : Grid) (space : list coord)
         (point dest shift check : coord) (scale : Z) : result walk_exit :=
  match fuel with
  | O => Diverge
  | S fuel' =>
      if decide (check ≠ dest)
      then let check' := (point.1 + shift.1 * scale, point.2 + shift.2 * scale) in
           hit ← (if decide (check' ∉ space)
                  then v ← board_get board_space check'; Ok (bool_decide (v ≠ Empty))
                  else Ok false);
           if hit && bool_decide (check' ≠ dest)
           then Ok ReturnTrue
           else walk fuel' board_space space point dest shift check' (scale + 1)
      else Ok (LoopDone check)
  end.

(** The [for point in space] loop; [check] survives from one point to the
    next, as [check_x] and [check_y] do. *)
Fixpoint scan_points (board_space : Grid) (space : list coord) (disp shift check : coord)
         (points : list coord) : result bool :=
  match points with
  | [] => Ok false
  | point :: rest =>
      r ← walk loop_fuel board_space space point
               (point.1 + disp.1, point.2 + disp.2) shift check 1;
      match r with
      | ReturnTrue => Ok true
      | LoopDone check' => scan_points board_space space disp shift check' rest
      end
  end.

Definition check_obstruction (g : GessGame) (start_x start_y end_x end_y : Z)
           (piece : Piece) : result bool :=
  let disp_x := end_x - start_x in
  let disp_y := end_y - start_y in
  let space := get_area piece in
  let board_space := _game_board g in
  let shift_x := shift_of disp_x in
  let shift_y := shift_of disp_y in
  scan_points board_space space (disp_x, disp_y) (shift_x, shift_y) (0, 0) space.

(** The places read by the set literal [surround] of [check_win], in the
    order they are written there. *)
Definition surround_reads (i j : Z) : list coord :=
  [(i + 1, j); (i - 1, j); (i + 1, j + 1); (i + 1, j - 1); (i - 1, j);
   (i - 1, j - 1); (i - 1, j + 1); (i, j - 1)].

Definition surround (board : Grid) (i j : Z) : result (gset Cell) :=
  for_each (fun (s : gset Cell) n => v ← board_get board n; Ok ({[ v ]} ∪ s))
           ∅ (surround_reads i j).

(** [board[i][j] == " " and surround == {colour}] *)
Definition ring_at (board : Grid) (i j : Z) (sur : gset Cell) (colour : Cell)
  : result bool :=
  c ← board_get board (i, j);
  Ok (bool_decide (c = Empty) && bool_decide (sur = {[ colour ]})).

(** The body of the double loop, on the pair [(black_ring, white_ring)]. *)
Definition ring_step (board : Grid) (i : Z) (rings : bool * bool) (j : Z)
  : result (bool * bool) :=
  sur ← surround board i j;
  b ← ring_at board i j sur Black;
  w ← ring_at board i j sur White;
  Ok (if b : bool then true else rings.1, if w : bool then true else rings.2).

Definition ring_scan (board : Grid) : result (bool * bool) :=
  for_each (fun rings i => for_each (ring_step board i) rings (py_range 1 19))
           (false, false) (py_range 1 19).

Definition check_win (g : GessGame) : result GameState :=
  rings ← ring_scan (_game_board g);
  if negb rings.1 then Ok WHITE_WON
  else if negb rings.2 then Ok BLACK_WON
  else Ok UNFINISHED.

(** [s[0]] and [int(s[1:])] *)
Definition py_head (s : string) : result ascii :=
  match s with
  | EmptyString => Raise IndexError
  | String c _ => Ok c
  end.

Definition py_tail (s : string) : string :=
  match s with
  | EmptyString => EmptyString
  | String _ rest => rest
  end.

Definition int_tail (s : string) : result Z :=
  match py_int (py_tail s) with
  | Some n => Ok n
  | None => Raise ValueError
  end.

(** [c[0] == "a" or c[0] == "t" or int(c[1:]) >= 20 or int(c[1:]) <= 0] *)
Definition border_guard (c : string) : result bool :=
  h ← py_head c;
  if decide (h = "a"%char) then Ok true
  else h' ← py_head c;
       if decide (h' = "t"%char) then Ok true
       else n ← int_tail c;
            if 20 <=? n then Ok true
            else n' ← int_tail c; Ok (n' <=? 0).

(** [(self._game_board.get_map()[c[0]], int(c[1:]) - 1)] *)
Definition decode (c : string) : result coord :=
  h ← py_head c;
  x ← match Board.locmap !! h with
      | Some x => Ok x
      | None => Raise KeyError
      end;
  n ← int_tail c;
  Ok (x, n - 1).

(** The border clean-up loop of [make_move]. *)
Definition clear_border (board : Grid) (new : gset coord) : result Grid :=
  for_each (fun b stone =>
              if decide (stone ∈ Board.border)
              then board_set b stone Empty else Ok b)
           board (elements new).

Definition flip (player : Player) : Player :=
  if decide (player = BLACK) then WHITE else BLACK.

Definition make_move (g : GessGame) (start_center end_center : string)
  : result (bool * GessGame) :=
  if decide (_game_state g ≠ UNFINISHED) then Ok (false, g) else
  sb ← border_guard start_center;
  if sb : bool then Ok (false, g) else
  eb ← border_guard end_center;
  if eb : bool then Ok (false, g) else
  start ← decode start_center;
  let start_x := start.1 in
  let start_y := start.2 in
  moving_piece ← Piece_init (start_x, start_y) (_game_board g);
  c1 ← get_area_contents moving_piece;
  mixed ← (if decide (Black ∈ c1)
           then c2 ← get_area_contents moving_piece; Ok (bool_decide (White ∈ c2))
           else Ok false);
  if mixed : bool then Ok (false, g) else
  black_moves_white ← (if decide (_current_player g = BLACK)
                       then c3 ← get_area_contents moving_piece;
                            Ok (bool_decide (White ∈ c3))
                       else Ok false);
  if black_moves_white : bool then Ok (false, g) else
  white_moves_black ← (if decide (_current_player g = WHITE)
                       then c4 ← get_area_contents moving_piece;
                            Ok (bool_decide (Black ∈ c4))
                       else Ok false);
  if white_moves_black : bool then Ok (false, g) else
  end_ ← decode end_center;
  let end_x := end_.1 in
  let end_y := end_.2 in
  valid ← valid_moves moving_piece;
  if decide ((end_x, end_y) ∉ valid) then Ok (false, g) else
  obstructed ← check_obstruction g start_x start_y end_x end_y moving_piece;
  if obstructed : bool then Ok (false, g) else
  moved ← move moving_piece (end_x, end_y);
  board' ← clear_border moved.1 moved.2;
  let g1 := {| _game_state := _game_state g; _current_player := _current_player g;
               _game_board := board' |} in
  state ← check_win g1;
  let g2 := {| _game_state := state; _current_player := _current_player g1;
               _game_board := board' |} in
  if decide (state = UNFINISHED)
  then Ok (true, {| _game_state := state; _current_player := flip (_current_player g2);
                    _game_board := board' |})
  else Ok (true, g2).

End Engine.

(** ** Concrete parameters for running the embedding *)

(** The value of a decimal digit. *)
Definition digit_of (c : ascii) : option Z :=
  let n := Z.of_N (N_of_ascii c) in
  if (48 <=? n) && (n <=? 57) then Some (n - 48) else None.

(** The value of a run of digits, most significant first. *)
Fixpoint digits_value (acc : Z) (s : string) : option Z :=
  match s with
  | EmptyString => Some acc
  | String c rest =>
      match digit_of c with
      | Some d => digits_value (10 * acc + d) rest
      | None => None
      end
  end.

(** [int] on plain decimal numerals, with an optional minus sign: what the
    coordinates used below give it. (The builtin also accepts a plus sign,
    surrounding blanks and underscores; the theorems hold for any [py_int].) *)
Definition int_of_decimal (s : string) : option Z :=
  match s with
  | EmptyString => None
  | String "-" (String c rest) => Z.opp <$> digits_value 0 (String c rest)
  | _ => digits_value 0 s
  end.

(** The fresh game: [GessGame()] with [int] read as decimal and the area
    iterated in comprehension order. *)
Definition initial_board : Grid :=
  Eval vm_compute in match Board.init with Ok b => b | _ => [] end.

Definition new_game : GessGame :=
  {| _game_state := UNFINISHED; _current_player := BLACK; _game_board := initial_board |}.

(** * Vocabulary of the statements and test positions *)

(** [c + k * d] *)
Definition stepped (c : coord) (k : Z) (d : coord) : coord :=
  (c.1 + k * d.1, c.2 + k * d.2).

(** Distance left, along [pos], before a point leaves the open square. *)
Definition room (pos loc : coord) : Z :=
  if 0 <? pos.1 then 20 - loc.1
  else if pos.1 <? 0 then loc.1
  else if 0 <? pos.2 then 20 - loc.2
  else loc.2.

(** The shape every board of a game has: twenty rows of twenty cells. *)
Definition wf_board (board : Grid) : Prop :=
  length board = 20%nat /\ Forall (fun row => length row = 20%nat) board.

(** Addresses of the grid (without the wrap of negative indices). *)
Definition in_grid (p : coord) : Prop := 0 <= p.1 < 20 /\ 0 <= p.2 < 20.

#[global] Instance wf_board_dec (board : Grid) : Decision (wf_board board).
Proof. unfold wf_board. apply _. Defined.

(** A blank board with the given stones put on it. *)
Definition with_stones (stones : list (coord * Cell)) : Grid :=
  match for_each (fun b s => board_set b s.1 s.2) Board.blank stones with
  | Ok b => b
  | _ => Board.blank
  end.

(** A limited piece next to the far border: a lone stone below the empty
    centre (17, 5). *)
Definition board_low_stone : Grid := with_stones [((18, 5), Black)].

(** The test the scan applies at [(i, j)] for one colour: the point is empty
    and every place read into [surround] holds that colour. *)
Definition ring_seen (board : Grid) (colour : Cell) (i j : Z) : Prop :=
  board_get board (i, j) = Ok Empty /\
  forall n, n ∈ surround_reads i j -> board_get board n = Ok colour.

(** A ring as the scan of [check_win] finds it. *)
Definition ring_found (board : Grid) (colour : Cell) : Prop :=
  exists i j, 1 <= i <= 18 /\ 1 <= j <= 18 /\ ring_seen board colour i j.

(** The eight neighbours of a point. *)
Definition neighbours (i j : Z) : list coord :=
  [(i + 1, j); (i - 1, j); (i, j + 1); (i, j - 1);
   (i + 1, j + 1); (i + 1, j - 1); (i - 1, j + 1); (i - 1, j - 1)].

(** A ring in the sense of the rules: an empty interior point whose eight
    neighbours all hold [colour]. *)
Definition ring_enclosed (board : Grid) (colour : Cell) : Prop :=
  exists i j, 1 <= i <= 18 /\ 1 <= j <= 18 /\
    board_get board (i, j) = Ok Empty /\
    forall n, n ∈ neighbours i j -> board_get board n = Ok colour.

#[global] Instance result_eq_dec {A : Type} `{EqDecision A} : EqDecision (result A).
Proof. solve_decision. Defined.

(** [ring_enclosed], as a computation. *)
Definition enclosed_at (board : Grid) (colour : Cell) (i j : Z) : bool :=
  bool_decide (board_get board (i, j) = Ok Empty) &&
  forallb (fun n => bool_decide (board_get board n = Ok colour)) (neighbours i j).

Definition ring_enclosed_b (board : Grid) (colour : Cell) : bool :=
  existsb (fun i => existsb (enclosed_at board colour i) (py_range 1 19)) (py_range 1 19).

(** Seven black stones around the empty point (5, 5), the place (5, 6) left
    open; a closed white ring around (5, 14). *)
Definition board_open_ring : Grid :=
  with_stones
    [((4, 4), Black); ((4, 5), Black); ((4, 6), Black); ((5, 4), Black);
     ((6, 4), Black); ((6, 5), Black); ((6, 6), Black);
     ((4, 13), White); ((4, 14), White); ((4, 15), White); ((5, 13), White);
     ((5, 15), White); ((6, 13), White); ((6, 14), White); ((6, 15), White)].

(** The seven black stones of [board_open_ring] alone: the place (5, 6) is
    open and the board holds no white stone. *)
Definition board_seven_stones : Grid :=
  with_stones
    [((4, 4), Black); ((4, 5), Black); ((4, 6), Black); ((5, 4), Black);
     ((6, 4), Black); ((6, 5), Black); ((6, 6), Black)].

(** [c - disp] *)
Definition back (disp q : coord) : coord := (q.1 - disp.1, q.2 - disp.2).

(** A place that stops the slide: outside the piece's own area and holding a
    stone. *)
Definition hit (board : Grid) (space : list coord) (q : coord) : Prop :=
  (q ∉ space) /\ exists v, board_get board q = Ok v /\ v ≠ Empty.

#[global] Instance hit_dec (board : Grid) (space : list coord) (q : coord) :
  Decision (hit board space q).
Proof.
  unfold hit. destruct (decide (q ∉ space)) as [Hq | Hq]; [| right; tauto].
  destruct (board_get board q) as [v | |].
  - destruct (decide (v ≠ Empty)) as [Hv | Hv].
    + left. eauto.
    + right. intros (_ & v' & [= <-] & Hv'). done.
  - right. by intros (_ & v' & ? & _).
  - right. by intros (_ & v' & ? & _).
Defined.

(** The verdict the rules ask for: some cell of the footprint meets, at a
    step strictly before its own destination, a stone outside the
    footprint. *)
Definition blocked (board : Grid) (c e : coord) : Prop :=
  let sh := (shift_of (e.1 - c.1), shift_of (e.2 - c.2)) in
  let n := Z.max (Z.abs (e.1 - c.1)) (Z.abs (e.2 - c.2)) in
  exists cell k, cell ∈ area_cells c /\ 1 <= k < n /\
                 hit board (area_cells c) (stepped cell k sh).

(** A two-stone piece: centre (5, 5) and the stone below it. *)
Definition board_two_stones : Grid := with_stones [((5, 5), Black); ((6, 5), Black)].

(** The same board with a white stone on (7, 5), the place where the centre
    of the piece lands when it slides to (7, 5). *)
Definition board_two_stones_target : Grid :=
  with_stones [((5, 5), Black); ((6, 5), Black); ((7, 5), White)].

(** An unlimited piece two rows above the far border: centre (17, 5) and the
    stone below it. *)
Definition board_low_pair : Grid := with_stones [((17, 5), Black); ((18, 5), Black)].

(** A piece on (4, 4) that can slide up the diagonal, and a white stone on
    (1, 1). *)
Definition board_diagonal : Grid :=
  with_stones [((4, 4), Black); ((3, 3), Black); ((1, 1), White)].

(** The colour of the stones a player moves. *)
Definition stone_of (player : Player) : Cell :=
  match player with BLACK => Black | WHITE => White end.

(** Every address of the grid, row by row. *)
Definition grid_points : list coord :=
  x ← py_range 0 20; y ← py_range 0 20; [(x, y)].

(** * Properties *)

(** ** Reasoning about [result] computations *)

Lemma bind_Ok {A B : Type} (m : result A) (f : A -> result B) (b : B) :
  m ≫= f = Ok b -> exists a, m = Ok a /\ f a = Ok b.
Proof. destruct m; simpl; intros; try discriminate. eauto. Qed.

Lemma Ok_inj {A : Type} (a b : A) : Ok a = Ok b -> a = b.
Proof. congruence. Qed.

(** Split the first bind (or test) met in a hypothesis of the form
    [_ = Ok _]. *)
Ltac ok_inv H :=
  repeat first
    [ let a := fresh "a" in let E := fresh "E" in
      apply bind_Ok in H; destruct H as (a & E & H)
    | progress (cbn beta iota in H)
    | match type of H with
      | (if ?c then _ else _) = _ => destruct c eqn:?
      | (let _ := _ in _) = _ => cbv zeta in H
      | Ok _ = Ok _ => apply Ok_inj in H
      end ].

Lemma GessGame_init_new_game : GessGame_init = Ok new_game.
Proof. reflexivity. Qed.

(** ** Rejections leave the game untouched *)

(** C1. Whenever [make_move] returns False, for whatever reason, the board,
    the game state and the current player are exactly what they were before
    the call. *)
Theorem make_move_failure_unchanged
        (py_int : string -> option Z) (area_order : coord -> list coord)
        (g g' : GessGame) (start_center end_center : string) :
  make_move py_int area_order g start_center end_center = Ok (false, g') ->
  g' = g.
Proof.
  unfold make_move. intros H.
  ok_inv H; congruence.
Qed.

Lemma make_move_failure_unchanged_witness :
  make_move int_of_decimal area_cells new_game "a5" "c5" = Ok (false, new_game) /\
  new_game = new_game.
Proof.
  split; [vm_compute; reflexivity |].
  apply (make_move_failure_unchanged int_of_decimal area_cells new_game new_game "a5" "c5").
  vm_compute; reflexivity.
Defined.

(** ** The game-status state machine *)

Lemma flip_other (p : Player) : flip p ≠ p.
Proof. by destruct p. Qed.

(** C9. Once the game is decided ([BLACK_WON] or [WHITE_WON]) every call of
    [make_move] returns False and changes nothing; and after a successful
    call the current player is the other colour exactly when the resulting
    state is [UNFINISHED], a winning move leaving the current player as it
    was. *)
Theorem make_move_state_machine
        (py_int : string -> option Z) (area_order : coord -> list coord)
        (g : GessGame) (start_center end_center : string) :
  (_game_state g = BLACK_WON \/ _game_state g = WHITE_WON ->
   make_move py_int area_order g start_center end_center = Ok (false, g)) /\
  (forall g', make_move py_int area_order g start_center end_center = Ok (true, g') ->
     _game_state g = UNFINISHED /\
     (_current_player g' = flip (_current_player g) <-> _game_state g' = UNFINISHED) /\
     (_game_state g' ≠ UNFINISHED -> _current_player g' = _current_player g)).
Proof.
  split.
  - intros Hdone. unfold make_move.
    destruct (decide (_game_state g ≠ UNFINISHED)) as [|Hn]; [done |].
    exfalso. apply Hn. intros Hu. destruct Hdone; congruence.
  - intros g' H. unfold make_move in H.
    pose proof (flip_other (_current_player g)) as Hflip.
    ok_inv H; try discriminate; simplify_eq; simpl in *.
    all: repeat split; intros; try congruence; try tauto.
    all: try (destruct (_game_state g); congruence).
    all: try (by destruct (_game_state g); naive_solver).
Qed.

Lemma make_move_state_machine_witness :
  (_game_state (resign_game new_game) = BLACK_WON \/
   _game_state (resign_game new_game) = WHITE_WON) /\
  make_move int_of_decimal area_cells (resign_game new_game) "c3" "c6"
    = Ok (false, resign_game new_game) /\
  exists g', make_move int_of_decimal area_cells new_game "c3" "c6" = Ok (true, g') /\
             _game_state g' = UNFINISHED /\ _current_player g' = WHITE.
Proof.
  split; [right; reflexivity |]. split.
  - apply (make_move_state_machine int_of_decimal area_cells (resign_game new_game) "c3" "c6").
    right; reflexivity.
  - destruct (make_move int_of_decimal area_cells new_game "c3" "c6") as [[[] g']| |] eqn:E;
      try (vm_compute in E; discriminate).
    exists g'. split; [reflexivity |].
    destruct (make_move_state_machine int_of_decimal area_cells new_game "c3" "c6")
      as [_ Hs].
    destruct (Hs g' E) as (_ & Hflip & _).
    assert (Hst : _game_state g' = UNFINISHED).
    { vm_compute in E. injection E as <-. reflexivity. }
    split; [exact Hst |]. apply Hflip in Hst. exact Hst.
Defined.

(** ** Reachable targets: [valid_moves] *)

Lemma in_bounds_spec (q : coord) :
  in_bounds q = true <-> 0 < q.1 < 20 /\ 0 < q.2 < 20.
Proof.
  unfold in_bounds. rewrite !andb_true_iff, !Z.ltb_lt. lia.
Qed.

Lemma guarded_add_spec (c : coord) (valid : gset coord) (q : coord) :
  q ∈ (if in_bounds c then {[ c ]} ∪ valid else valid) <->
  q ∈ valid \/ (q = c /\ in_bounds q = true).
Proof.
  destruct (in_bounds c) eqn:Hb.
  - rewrite elem_of_union, elem_of_singleton. split.
    + intros [-> | H]; auto.
    + intros [H | [-> _]]; auto.
  - split; [auto |]. intros [H | [-> H]]; [done | congruence].
Qed.

Lemma three_steps_spec (loc : coord) (valid : gset coord) (pos q : coord) :
  q ∈ three_steps loc valid pos <->
  q ∈ valid \/ exists k, 1 <= k <= 3 /\ q = stepped loc k pos /\ in_bounds q = true.
Proof.
  unfold three_steps. cbv zeta. rewrite !guarded_add_spec. unfold stepped. split.
  - intros [[[H | [-> H]] | [-> H]] | [-> H]]; auto; right.
    + exists 1. split; [lia |]. split; [f_equal; lia | done].
    + exists 2. split; [lia |]. done.
    + exists 3. split; [lia |]. done.
  - intros [H | (k & Hk & -> & Hb)]; [auto |].
    assert (k = 1 \/ k = 2 \/ k = 3) as [-> | [-> | ->]] by lia; auto.
    left; left; right.
    replace (loc.1 + pos.1) with (loc.1 + 1 * pos.1) by lia.
    replace (loc.2 + pos.2) with (loc.2 + 1 * pos.2) by lia. done.
Qed.

Lemma limited_loop_spec (loc : coord) (l : list coord) (acc : gset coord) (q : coord) :
  q ∈ foldl (three_steps loc) acc l <->
  q ∈ acc \/ exists d k, d ∈ l /\ 1 <= k <= 3 /\ q = stepped loc k d /\ in_bounds q = true.
Proof.
  revert acc. induction l as [| pos l IH]; intros acc; simpl.
  - split; [auto |]. intros [H | (d & k & Hd & _)]; [done |]. by apply elem_of_nil in Hd.
  - rewrite IH, three_steps_spec. split.
    + intros [[H | (k & Hk & Hq & Hb)] | (d & k & Hd & Hk & Hq & Hb)]; auto.
      * right. exists pos, k. split; [left |]; auto.
      * right. exists d, k. split; [by right |]; auto.
    + intros [H | (d & k & Hd & Hk & Hq & Hb)]; auto.
      apply elem_of_cons in Hd as [-> | Hd].
      * left. right. eauto.
      * right. eauto 6.
Qed.

(** The unlimited loop records [loc + pos], [loc + 2 pos], ... as long as the
    point it starts the round from is in bounds. *)
Lemma slide_spec (fuel : nat) (loc pos : coord) (valid S : gset coord) :
  slide fuel loc pos valid = Ok S ->
  forall q, q ∈ S <->
            q ∈ valid \/
            exists k, 1 <= k /\ q = stepped loc k pos /\
                      forall j, 0 <= j < k -> in_bounds (stepped loc j pos) = true.
Proof.
  revert loc valid. induction fuel as [| fuel IH]; intros loc valid H q; [done |].
  simpl in H. destruct (in_bounds loc) eqn:Hb.
  - apply IH with (q := q) in H. rewrite H. clear H IH. unfold stepped; simpl. split.
    + intros [Hq | (k & Hk & -> & Hj)].
      * apply elem_of_union in Hq as [Hq | Hq]; [| by left].
        apply elem_of_singleton in Hq as ->. right. exists 1.
        split; [lia |]. split; [f_equal; lia |].
        intros j Hj. assert (j = 0) as -> by lia.
        rewrite <- Hb. f_equal. destruct loc; simpl; f_equal; lia.
      * right. exists (k + 1). split; [lia |]. split; [f_equal; lia |].
        intros j Hj'. destruct (decide (j = 0)) as [-> | Hn].
        -- rewrite <- Hb. destruct loc; simpl; f_equal; f_equal; lia.
        -- specialize (Hj (j - 1)). rewrite <- Hj by lia. f_equal; f_equal; lia.
    + intros [Hq | (k & Hk & -> & Hj)]; [left; set_solver |].
      destruct (decide (k = 1)) as [-> | Hn].
      * left. apply elem_of_union. left. apply elem_of_singleton. f_equal; lia.
      * right. exists (k - 1). split; [lia |]. split; [f_equal; lia |].
        intros j Hj'. specialize (Hj (j + 1)). rewrite <- Hj by lia. f_equal; f_equal; lia.
  - injection H as <-. split; [auto |].
    intros [Hq | (k & Hk & _ & Hj)]; [done |].
    specialize (Hj 0). unfold stepped in Hj.
    replace (loc.1 + 0 * pos.1, loc.2 + 0 * pos.2) with loc in Hj
      by (destruct loc; simpl; f_equal; lia).
    rewrite Hj in Hb by lia. discriminate.
Qed.

Lemma unlimited_loop_spec (fuel : nat) (c : coord) (l : list coord) (acc S : gset coord) :
  for_each (fun valid pos => slide fuel c pos valid) acc l = Ok S ->
  forall q, q ∈ S <->
            q ∈ acc \/
            exists d k, d ∈ l /\ 1 <= k /\ q = stepped c k d /\
                        forall j, 0 <= j < k -> in_bounds (stepped c j d) = true.
Proof.
  revert acc. induction l as [| pos l IH]; intros acc H q; cbn [for_each] in H.
  - injection H as <-. split; [auto |].
    intros [H | (d & k & Hd & _)]; [done |]. by apply elem_of_nil in Hd.
  - apply bind_Ok in H as (S1 & H1 & H2).
    rewrite (IH _ H2 q), (slide_spec _ _ _ _ _ H1 q). split.
    + intros [[H | (k & Hk & Hq & Hb)] | (d & k & Hd & Hk & Hq & Hb)]; auto.
      * right. exists pos, k. split; [left |]; auto.
      * right. exists d, k. split; [by right |]; auto.
    + intros [H | (d & k & Hd & Hk & Hq & Hb)]; auto.
      apply elem_of_cons in Hd as [-> | Hd].
      * left. right. eauto.
      * right. eauto 6.
Qed.

Lemma slide_fuel_enough (pos : coord) :
  pos ≠ (0, 0) ->
  forall fuel loc valid,
    (Z.to_nat (room pos loc) < fuel)%nat ->
    exists S, slide fuel loc pos valid = Ok S.
Proof.
  intros Hpos. induction fuel as [| fuel IH]; intros loc valid Hf; [lia |].
  simpl. destruct (in_bounds loc) eqn:Hb; [| eauto].
  apply IH. apply in_bounds_spec in Hb.
  destruct pos as [px py], loc as [x y]. unfold room in *. simpl in *.
  assert (px ≠ 0 \/ py ≠ 0) by (destruct (decide (px = 0)); [right; congruence | auto]).
  repeat case_match;
    repeat match goal with
           | H : (_ <? _) = true |- _ => apply Z.ltb_lt in H
           | H : (_ <? _) = false |- _ => apply Z.ltb_ge in H
           end; lia.
Qed.

Lemma slide_out_of_bounds (fuel : nat) (loc pos : coord) (valid : gset coord) :
  in_bounds loc = false -> slide (S fuel) loc pos valid = Ok valid.
Proof. intros Hb. simpl. by rewrite Hb. Qed.

Lemma slide_terminates (pos loc : coord) (valid : gset coord) :
  pos ≠ (0, 0) -> exists S, slide loop_fuel loc pos valid = Ok S.
Proof.
  intros Hpos. destruct (in_bounds loc) eqn:Hb.
  - apply slide_fuel_enough; [done |]. apply in_bounds_spec in Hb.
    unfold room, loop_fuel. repeat case_match; lia.
  - exists valid. by apply (slide_out_of_bounds 63).
Qed.

Lemma unlimited_loop_terminates (c : coord) (l : list coord) (acc : gset coord) :
  (0, 0) ∉ l ->
  exists S, for_each (fun valid pos => slide loop_fuel c pos valid) acc l = Ok S.
Proof.
  revert acc. induction l as [| pos l IH]; intros acc Hl; cbn [for_each]; [eauto |].
  apply not_elem_of_cons in Hl as [Hp Hl].
  destruct (slide_terminates pos c acc) as [S1 ->]; [congruence |].
  cbn [mbind result_bind]. auto.
Qed.

(** [valid_moves] returns as soon as the direction [(0, 0)] is not among the
    filled ones, which [__init__] ensures. *)
Lemma valid_moves_returns (p : Piece) :
  (0, 0) ∉ _filled p -> exists S, valid_moves p = Ok S.
Proof.
  intros H0. unfold valid_moves. destruct (_unlimited p); [| eauto].
  apply unlimited_loop_terminates. by rewrite elem_of_elements.
Qed.

(** What the returned set is, for both kinds of mobility. *)
Lemma valid_moves_spec (p : Piece) (S : gset coord) :
  valid_moves p = Ok S ->
  forall q, q ∈ S <->
    exists d k, d ∈ _filled p /\ 1 <= k /\ q = stepped (_center p) k d /\
      if _unlimited p
      then forall j, 0 <= j < k -> in_bounds (stepped (_center p) j d) = true
      else k <= 3 /\ in_bounds q = true.
Proof.
  unfold valid_moves. intros H q. destruct (_unlimited p).
  - rewrite (unlimited_loop_spec _ _ _ _ _ H q). split.
    + intros [H0 | (d & k & Hd & Hk & Hq & Hb)]; [done |].
      exists d, k. by rewrite <- elem_of_elements.
    + intros (d & k & Hd & Hk & Hq & Hb). right.
      exists d, k. by rewrite elem_of_elements.
  - injection H as <-. rewrite limited_loop_spec. split.
    + intros [H0 | (d & k & Hd & Hk & Hq & Hb)]; [done |].
      exists d, k. rewrite <- elem_of_elements. repeat split; auto; lia.
    + intros (d & k & Hd & Hk & Hq & Hk3 & Hb). right.
      exists d, k. rewrite elem_of_elements. repeat split; auto; lia.
Qed.

(** The piece built by [__init__]. *)
Lemma Piece_init_fields (area_order : coord -> list coord) (c : coord) (board : Grid)
      (p : Piece) :
  Piece_init area_order c board = Ok p ->
  _center p = c /\ _x_coord p = c.1 /\ _y_coord p = c.2 /\
  _area p = area_order c /\ _board p = board /\ ((0, 0) ∉ _filled p) /\
  exists v, board_get board (c.1, c.2) = Ok v /\ _unlimited p = bool_decide (v ≠ Empty).
Proof.
  unfold Piece_init. intros H. ok_inv H. subst p. simpl.
  repeat split; try done; [set_solver | eauto].
Qed.

(** ** The grid as a 20x20 array *)

Lemma py_getitem_in_range {A : Type} (l : list A) (i : Z) :
  0 <= i < Z.of_nat (length l) ->
  exists a, l !! Z.to_nat i = Some a /\ py_getitem l i = Ok a.
Proof.
  intros Hi. unfold py_getitem.
  destruct (lookup_lt_is_Some_2 l (Z.to_nat i)) as [a Ha]; [lia |].
  exists a. split; [done |].
  replace (i <? 0) with false by (symmetry; apply Z.ltb_ge; lia).
  replace (i <? 0) with false by (symmetry; apply Z.ltb_ge; lia).
  replace (Z.of_nat (length l) <=? i) with false by (symmetry; apply Z.leb_gt; lia).
  simpl. by rewrite Ha.
Qed.

Lemma py_getitem_wrapped {A : Type} (l : list A) (i : Z) :
  - Z.of_nat (length l) <= i < 0 ->
  py_getitem l i = py_getitem l (i + Z.of_nat (length l)).
Proof.
  intros Hi. unfold py_getitem. cbv zeta.
  assert ((i <? 0) = true) as -> by (apply Z.ltb_lt; lia).
  assert ((i + Z.of_nat (length l) <? 0) = false) as E by (apply Z.ltb_ge; lia).
  by rewrite !E.
Qed.

Lemma py_setitem_in_range {A : Type} (l : list A) (i : Z) (v : A) :
  0 <= i < Z.of_nat (length l) ->
  py_setitem l i v = Ok (<[Z.to_nat i := v]> l).
Proof.
  intros Hi. unfold py_setitem.
  replace (i <? 0) with false by (symmetry; apply Z.ltb_ge; lia).
  replace (i <? 0) with false by (symmetry; apply Z.ltb_ge; lia).
  replace (Z.of_nat (length l) <=? i) with false by (symmetry; apply Z.leb_gt; lia).
  done.
Qed.

Lemma wf_board_row (board : Grid) (i : nat) (row : list Cell) :
  wf_board board -> board !! i = Some row -> length row = 20%nat.
Proof.
  intros [_ Hrows] Hi. rewrite Forall_lookup in Hrows. eauto.
Qed.

Lemma board_get_in_grid (board : Grid) (p : coord) :
  wf_board board -> in_grid p -> exists v, board_get board p = Ok v.
Proof.
  intros Hwf [Hx Hy]. unfold board_get.
  destruct (py_getitem_in_range board p.1) as (row & Hrow & ->); [destruct Hwf; lia |].
  simpl. pose proof (wf_board_row _ _ _ Hwf Hrow) as Hlen.
  destruct (py_getitem_in_range row p.2) as (v & _ & ->); [lia |]. eauto.
Qed.

(** Reads also succeed through negative indices down to -20. *)
Lemma board_get_readable (board : Grid) (p : coord) :
  wf_board board -> -20 <= p.1 < 20 -> -20 <= p.2 < 20 ->
  exists v, board_get board p = Ok v.
Proof.
  intros Hwf Hx Hy. unfold board_get.
  assert (Hlen : Z.of_nat (length board) = 20) by (destruct Hwf; lia).
  assert (exists row i, board !! i = Some row /\ py_getitem board p.1 = Ok row)
    as (row & i & Hrow & ->).
  { destruct (decide (p.1 < 0)).
    - rewrite py_getitem_wrapped by lia.
      destruct (py_getitem_in_range board (p.1 + Z.of_nat (length board)))
        as (row & Hrow & ->); [lia | eauto].
    - destruct (py_getitem_in_range board p.1) as (row & Hrow & ->); [lia | eauto]. }
  simpl. pose proof (wf_board_row _ _ _ Hwf Hrow) as Hr.
  destruct (decide (p.2 < 0)).
  - rewrite py_getitem_wrapped by lia.
    destruct (py_getitem_in_range row (p.2 + Z.of_nat (length row)))
      as (v & _ & ->); [lia | eauto].
  - destruct (py_getitem_in_range row p.2) as (v & _ & ->); [lia | eauto].
Qed.

Lemma board_set_in_grid (board : Grid) (p : coord) (v : Cell) :
  wf_board board -> in_grid p ->
  exists board', board_set board p v = Ok board' /\ wf_board board' /\
    forall q, in_grid q ->
      board_get board' q = if decide (q = p) then Ok v else board_get board q.
Proof.
  intros Hwf [Hx Hy]. unfold board_set.
  assert (Hlen : length board = 20%nat) by (by destruct Hwf).
  destruct (py_getitem_in_range board p.1) as (row & Hrow & ->); [lia |].
  pose proof (wf_board_row _ _ _ Hwf Hrow) as Hr.
  simpl. rewrite py_setitem_in_range by lia. simpl.
  rewrite py_setitem_in_range by lia.
  eexists. split; [done |]. split.
  - split; [by rewrite length_insert |].
    apply Forall_insert; [by destruct Hwf | by rewrite length_insert].
  - intros q [Hqx Hqy]. unfold board_get.
    destruct (decide (q = p)) as [Heq | Hne]; [subst q |].
    + destruct (py_getitem_in_range (<[Z.to_nat p.1:=<[Z.to_nat p.2:=v]> row]> board) p.1)
        as (row' & Hrow' & ->); [rewrite length_insert; lia |].
      rewrite list_lookup_insert_eq in Hrow' by lia. injection Hrow' as <-. simpl.
      destruct (py_getitem_in_range (<[Z.to_nat p.2:=v]> row) p.2)
        as (v' & Hv' & ->); [rewrite length_insert; lia |].
      rewrite list_lookup_insert_eq in Hv' by lia. congruence.
    + destruct (py_getitem_in_range (<[Z.to_nat p.1:=<[Z.to_nat p.2:=v]> row]> board) q.1)
        as (row' & Hrow' & ->); [rewrite length_insert; lia |].
      destruct (py_getitem_in_range board q.1) as (row0 & Hrow0 & ->); [lia |].
      simpl. destruct (decide (q.1 = p.1)) as [Hx1 | Hx1].
      * rewrite Hx1 in *. rewrite list_lookup_insert_eq in Hrow' by lia.
        injection Hrow' as <-. assert (row0 = row) as -> by congruence.
        assert (q.2 ≠ p.2) by (destruct p, q; simpl in *; congruence).
        destruct (py_getitem_in_range (<[Z.to_nat p.2:=v]> row) q.2)
          as (v' & Hv' & ->); [rewrite length_insert; lia |].
        destruct (py_getitem_in_range row q.2) as (v0 & Hv0 & ->); [lia |].
        rewrite list_lookup_insert_ne in Hv' by lia. congruence.
      * rewrite list_lookup_insert_ne in Hrow' by lia. congruence.
Qed.

Lemma area_cells_unfold (c : coord) :
  area_cells c =
  [(c.1 + -1, c.2 + -1); (c.1 + -1, c.2 + 0); (c.1 + -1, c.2 + 1);
   (c.1 + 0, c.2 + -1); (c.1 + 0, c.2 + 0); (c.1 + 0, c.2 + 1);
   (c.1 + 1, c.2 + -1); (c.1 + 1, c.2 + 0); (c.1 + 1, c.2 + 1)].
Proof. reflexivity. Qed.

Lemma elem_of_area_cells (c q : coord) :
  q ∈ area_cells c <->
  c.1 - 1 <= q.1 <= c.1 + 1 /\ c.2 - 1 <= q.2 <= c.2 + 1.
Proof.
  rewrite area_cells_unfold. destruct q as [qx qy]. simpl.
  rewrite !elem_of_cons, elem_of_nil. split.
  - intros H. repeat destruct H as [H | H]; try done; injection H as -> ->; lia.
  - intros [Hx Hy].
    assert (qx = c.1 + -1 \/ qx = c.1 + 0 \/ qx = c.1 + 1) as Hqx by lia.
    assert (qy = c.2 + -1 \/ qy = c.2 + 0 \/ qy = c.2 + 1) as Hqy by lia.
    destruct Hqx as [-> | [-> | ->]], Hqy as [-> | [-> | ->]]; tauto.
Qed.

Lemma NoDup_area_cells (c : coord) : NoDup (area_cells c).
Proof.
  rewrite area_cells_unfold.
  repeat (apply NoDup_cons_2;
          [rewrite ?elem_of_cons, elem_of_nil; intros H;
           repeat destruct H as [H | H]; try done; simplify_eq; lia |]).
  apply NoDup_nil_2.
Qed.

Lemma for_each_returns {A S : Type} (body : S -> A -> result S) (l : list A) (s : S) :
  (forall s a, a ∈ l -> exists s', body s a = Ok s') ->
  exists s', for_each body s l = Ok s'.
Proof.
  revert s. induction l as [| a l IH]; intros s Hbody; simpl; [eauto |].
  destruct (Hbody s a) as [s1 ->]; [left |]. simpl.
  apply IH. intros s2 a2 Ha2. apply Hbody. by right.
Qed.

(** A piece can be built wherever the nine reads go through. *)
Lemma Piece_init_returns (area_order : coord -> list coord) (c : coord) (board : Grid) :
  wf_board board ->
  area_order c ≡ₚ area_cells c ->
  -19 <= c.1 < 19 -> -19 <= c.2 < 19 ->
  exists p, Piece_init area_order c board = Ok p.
Proof.
  intros Hwf Hperm Hx Hy. unfold Piece_init. cbv zeta.
  edestruct (for_each_returns
               (fun (acc : gset coord) pos =>
                  v ← board_get board pos;
                  Ok (if decide (v ≠ Empty)
                      then {[ (pos.1 - c.1, pos.2 - c.2) ]} ∪ acc else acc))
               (area_order c) ∅) as [filled ->].
  { intros acc pos Hpos. rewrite Hperm in Hpos. apply elem_of_area_cells in Hpos.
    destruct (board_get_readable board pos Hwf) as [v ->]; [lia | lia |].
    simpl. eauto. }
  simpl.
  destruct (board_get_readable board (c.1, c.2) Hwf) as [v ->]; simpl; [lia | lia |].
  eauto.
Qed.

Lemma get_area_contents_returns (p : Piece) :
  wf_board (_board p) ->
  (forall q, q ∈ _area p -> -20 <= q.1 < 20 /\ -20 <= q.2 < 20) ->
  exists types, get_area_contents p = Ok types.
Proof.
  intros Hwf Harea. unfold get_area_contents.
  apply for_each_returns. intros types point Hpoint.
  destruct (Harea _ Hpoint).
  destruct (board_get_readable (_board p) point Hwf) as [v ->]; [lia | lia |].
  simpl. eauto.
Qed.

(** The coordinates that pass the border test of [make_move]. *)
Lemma locmap_range (h : ascii) (x : Z) :
  Board.locmap !! h = Some x ->
  0 <= x <= 19 /\ (x = 0 -> h = "a"%char) /\ (x = 19 -> h = "t"%char).
Proof.
  destruct h as [[] [] [] [] [] [] [] []]; vm_compute; intros [= <-];
    repeat split; intros; try done.
Qed.

Lemma border_guard_of_decode (py_int : string -> option Z) (c : string) (x y : Z) :
  decode py_int c = Ok (x, y) ->
  exists b, border_guard py_int c = Ok b /\
            (b = false -> 1 <= x <= 18 /\ 0 <= y <= 18).
Proof.
  unfold decode, border_guard, int_tail. destruct c as [| h rest]; [done |].
  cbn [py_head py_tail mbind result_bind].
  destruct (Board.locmap !! h) as [x' |] eqn:Hx; [| done].
  cbn [mbind result_bind].
  destruct (py_int rest) as [n |]; [| done]. cbn [mbind result_bind].
  intros [= <- <-]. apply locmap_range in Hx as (Hr & H0 & H19).
  destruct (decide (h = "a"%char)); [by exists true |].
  destruct (decide (h = "t"%char)); [by exists true |].
  destruct (20 <=? n) eqn:Hn; [by exists true |].
  exists (n <=? 0). split; [done |]. intros Hn0.
  apply Z.leb_gt in Hn, Hn0.
  assert (x' ≠ 0) by (intros E; by apply H0 in E).
  assert (x' ≠ 19) by (intros E; by apply H19 in E).
  lia.
Qed.

(** ** What [valid_moves] returns *)

(** C6, as the code has it. For a piece whose centre was empty when it was
    built, [valid_moves] returns exactly the points [anchor + k * d], for [d]
    a filled direction and [k] in 1..3, whose row and column both lie
    strictly between 0 and 20 (that is in 1..19): each candidate is tested
    on its own. *)
Theorem valid_moves_limited (p : Piece) :
  _unlimited p = false ->
  exists S, valid_moves p = Ok S /\
    forall q, q ∈ S <->
      exists d k, d ∈ _filled p /\ 1 <= k <= 3 /\ q = stepped (_center p) k d /\
                  0 < q.1 < 20 /\ 0 < q.2 < 20.
Proof.
  intros Hlim. unfold valid_moves. rewrite Hlim. eexists. split; [done |].
  intros q. rewrite limited_loop_spec. split.
  - intros [H0 | (d & k & Hd & Hk & Hq & Hb)]; [done |].
    exists d, k. rewrite <- elem_of_elements. by apply in_bounds_spec in Hb.
  - intros (d & k & Hd & Hk & Hq & Hb). right.
    exists d, k. rewrite elem_of_elements. by apply in_bounds_spec in Hb.
Qed.

Lemma valid_moves_limited_witness :
  exists p, Piece_init area_cells (17, 5) board_low_stone = Ok p /\
    _unlimited p = false /\
    exists S, valid_moves p = Ok S /\
      forall q, q ∈ S <->
        exists d k, d ∈ _filled p /\ 1 <= k <= 3 /\ q = stepped (_center p) k d /\
                    0 < q.1 < 20 /\ 0 < q.2 < 20.
Proof.
  destruct (Piece_init area_cells (17, 5) board_low_stone) as [p | |] eqn:E;
    [| vm_compute in E; discriminate ..].
  exists p. split; [reflexivity |].
  assert (Hlim : _unlimited p = false).
  { vm_compute in E. injection E as <-. reflexivity. }
  split; [exact Hlim |].
  exact (valid_moves_limited p Hlim).
Defined.

(** C6 as stated fails: the candidate (19, 5) is returned although its row
    is not within 1..18. *)
Lemma valid_moves_limited_reaches_row_19 :
  exists p S, Piece_init area_cells (17, 5) board_low_stone = Ok p /\
    _unlimited p = false /\ valid_moves p = Ok S /\
    ~ (forall q, q ∈ S <->
         exists d k, d ∈ _filled p /\ 1 <= k <= 3 /\ q = stepped (_center p) k d /\
                     1 <= q.1 <= 18 /\ 1 <= q.2 <= 18).
Proof.
  destruct (Piece_init area_cells (17, 5) board_low_stone) as [p | |] eqn:E;
    [| vm_compute in E; discriminate ..].
  assert (Hp : _unlimited p = false /\ _center p = (17, 5) /\ (1, 0) ∈ _filled p).
  { vm_compute in E. injection E as <-. repeat split. }
  destruct Hp as (Hlim & Hc & Hd).
  destruct (valid_moves p) as [S | |] eqn:HS;
    [| unfold valid_moves in HS; rewrite Hlim in HS; discriminate ..].
  exists p, S. repeat split; try done.
  intros H. specialize (H (19, 5)). destruct H as [H _].
  destruct H as (d & k & _ & _ & _ & Hrow & _).
  - apply (valid_moves_spec p S HS). exists (1, 0), 2. rewrite Hc, Hlim.
    repeat split; try done; lia.
  - simpl in Hrow. lia.
Qed.

(** C7 fails on the opening position: the piece centred on (8, 2) has a
    filled centre and a stone below it, and [valid_moves] returns (20, 2),
    which is not an address of the 20x20 grid. *)
Theorem valid_moves_unlimited_leaves_grid :
  (p ← Piece_init area_cells (8, 2) initial_board;
   S ← valid_moves p;
   Ok (_unlimited p, bool_decide ((20, 2) ∈ S))) = Ok (true, true).
Proof. vm_compute. reflexivity. Qed.

Lemma stepped_fixed (c d : coord) (k : Z) :
  1 <= k -> stepped c k d = c -> d = (0, 0).
Proof.
  unfold stepped. destruct c as [x y], d as [dx dy]. simpl.
  intros Hk [= Hx Hy]. f_equal; nia.
Qed.

(** C10. The set returned by [valid_moves] never holds the piece's own
    centre, whatever the mobility; and so a call of [make_move] whose two
    coordinates decode to the same point returns False and changes
    nothing. *)
Theorem valid_moves_excludes_anchor
        (py_int : string -> option Z) (area_order : coord -> list coord) :
  (forall c board p S,
     Piece_init area_order c board = Ok p -> valid_moves p = Ok S -> c ∉ S) /\
  (forall g start_center end_center xy,
     wf_board (_game_board g) ->
     (forall c, area_order c ≡ₚ area_cells c) ->
     decode py_int start_center = Ok xy ->
     decode py_int end_center = Ok xy ->
     make_move py_int area_order g start_center end_center = Ok (false, g)).
Proof.
  assert (Hpart1 : forall c board p S,
     Piece_init area_order c board = Ok p -> valid_moves p = Ok S -> c ∉ S).
  { intros c board p S Hp HS Hc.
    apply Piece_init_fields in Hp as (Hcen & _ & _ & _ & _ & H0 & _).
    apply (valid_moves_spec p S HS) in Hc as (d & k & Hd & Hk & Hq & _).
    rewrite Hcen in Hq. symmetry in Hq. apply stepped_fixed in Hq; [| done].
    by subst d. }
  split; [exact Hpart1 |].
  intros g a b [x y] Hwf Hperm Ha Hb. unfold make_move. cbv zeta.
  destruct (decide (_game_state g ≠ UNFINISHED)); [done |].
  destruct (border_guard_of_decode _ _ _ _ Ha) as (sb & -> & Hsb).
  cbn [mbind result_bind]. destruct sb; [done |]. destruct Hsb as [Hx Hy]; [done |].
  destruct (border_guard_of_decode _ _ _ _ Hb) as (eb & -> & _).
  cbn [mbind result_bind]. destruct eb; [done |].
  rewrite Ha. cbn [mbind result_bind fst snd].
  destruct (Piece_init_returns area_order (x, y) (_game_board g)) as [p Hp];
    [done | apply Hperm | simpl; lia | simpl; lia |].
  rewrite Hp. cbn [mbind result_bind].
  pose proof (Piece_init_fields _ _ _ _ Hp) as (Hcen & _ & _ & Harea & Hboard & H0 & _).
  destruct (get_area_contents_returns p) as [types Ht].
  { by rewrite Hboard. }
  { intros q Hq. rewrite Harea, Hperm in Hq. apply elem_of_area_cells in Hq.
    simpl in Hq. lia. }
  rewrite Ht. cbn [mbind result_bind].
  destruct (valid_moves_returns p H0) as [S HS].
  pose proof (Hpart1 _ _ _ _ Hp HS) as Hnot.
  repeat first
    [ done
    | progress cbn [mbind result_bind fst snd]
    | rewrite Hb
    | rewrite HS
    | match goal with
      | |- (if ?c then _ else _) = _ => destruct c
      | |- (mbind _ (if ?c then _ else _)) = _ => destruct c
      end ].
Qed.

Lemma valid_moves_excludes_anchor_witness :
  wf_board (_game_board new_game) /\
  (forall c, area_cells c ≡ₚ area_cells c) /\
  decode int_of_decimal "c3" = Ok (2, 2) /\
  make_move int_of_decimal area_cells new_game "c3" "c3" = Ok (false, new_game) /\
  exists p S, Piece_init area_cells (2, 2) initial_board = Ok p /\
              valid_moves p = Ok S /\ (2, 2) ∉ S.
Proof.
  destruct (valid_moves_excludes_anchor int_of_decimal area_cells) as [H1 H2].
  assert (Hwf : wf_board (_game_board new_game)).
  { refine (bool_decide_unpack _ _). vm_compute. exact I. }
  assert (Hd : decode int_of_decimal "c3" = Ok (2, 2)) by (vm_compute; reflexivity).
  split; [exact Hwf |]. split; [reflexivity |]. split; [exact Hd |].
  split; [exact (H2 new_game "c3" "c3" (2, 2) Hwf (fun c => reflexivity _) Hd Hd) |].
  destruct (Piece_init area_cells (2, 2) initial_board) as [p | |] eqn:Ep;
    [| vm_compute in Ep; discriminate ..].
  destruct (valid_moves_returns p) as [S HS].
  { by apply Piece_init_fields in Ep as (_ & _ & _ & _ & _ & H0 & _). }
  exists p, S. split; [reflexivity |]. split; [exact HS |].
  exact (H1 (2, 2) initial_board p S Ep HS).
Defined.

(** ** Ring detection: [check_win] *)

Lemma elem_of_py_range (a b i : Z) : i ∈ py_range a b <-> a <= i < b.
Proof.
  unfold py_range. rewrite list_elem_of_fmap. split.
  - intros (n & -> & Hn). apply elem_of_seq in Hn. lia.
  - intros Hi. exists (Z.to_nat (i - a)). split; [lia |].
    apply elem_of_seq. lia.
Qed.

Lemma surround_loop_spec (board : Grid) (l : list coord) (acc S : gset Cell) :
  for_each (fun (s : gset Cell) n => v ← board_get board n; Ok ({[ v ]} ∪ s)) acc l = Ok S ->
  forall v, v ∈ S <-> v ∈ acc \/ exists n, n ∈ l /\ board_get board n = Ok v.
Proof.
  revert acc. induction l as [| n l IH]; intros acc H v; simpl in H.
  - injection H as <-. split; [auto |]. intros [H | (n & Hn & _)]; [done |].
    by apply elem_of_nil in Hn.
  - apply bind_Ok in H as (s1 & H1 & H2).
    apply bind_Ok in H1 as (v1 & Hv1 & H1). injection H1 as <-.
    rewrite (IH _ H2 v), elem_of_union, elem_of_singleton. split.
    + intros [[-> | H] | (m & Hm & Hv)]; auto.
      * right. exists n. split; [left | done].
      * right. exists m. split; [by right | done].
    + intros [H | (m & Hm & Hv)]; auto.
      apply elem_of_cons in Hm as [-> | Hm].
      * left. left. congruence.
      * right. eauto.
Qed.

Lemma surround_reads_in_grid (i j : Z) (n : coord) :
  1 <= i <= 18 -> 1 <= j <= 18 -> n ∈ surround_reads i j -> in_grid n.
Proof.
  intros Hi Hj. unfold surround_reads. rewrite !elem_of_cons, elem_of_nil.
  intros H. repeat destruct H as [H | H]; try done; subst n; unfold in_grid; simpl; lia.
Qed.

(** On a 20x20 board the set [surround] is built without error, and it equals
    [{colour}] exactly when every place read holds [colour]. *)
Lemma surround_spec (board : Grid) (i j : Z) :
  wf_board board -> 1 <= i <= 18 -> 1 <= j <= 18 ->
  exists S, surround board i j = Ok S /\
    forall colour, S = {[ colour ]} <->
                   forall n, n ∈ surround_reads i j -> board_get board n = Ok colour.
Proof.
  intros Hwf Hi Hj. unfold surround.
  destruct (for_each_returns
              (fun (s : gset Cell) n => v ← board_get board n; Ok ({[ v ]} ∪ s))
              (surround_reads i j) ∅) as [S HS].
  { intros s n Hn. apply (surround_reads_in_grid i j n Hi Hj) in Hn.
    destruct (board_get_in_grid board n Hwf Hn) as [v ->]. simpl. eauto. }
  exists S. split; [done |]. intros colour.
  pose proof (surround_loop_spec _ _ _ _ HS) as Hspec. split.
  - intros -> n Hn.
    pose proof (surround_reads_in_grid i j n Hi Hj Hn) as Hg.
    destruct (board_get_in_grid board n Hwf Hg) as [v Hv]. rewrite Hv. f_equal.
    apply (elem_of_singleton (C := gset Cell)). apply Hspec. right. eauto.
  - intros Hall. apply set_eq. intros v. rewrite Hspec, elem_of_singleton. split.
    + intros [H | (n & Hn & Hv)]; [done |]. rewrite (Hall n Hn) in Hv. congruence.
    + intros ->. right. exists (i + 1, j). split; [left |]. apply Hall. left.
Qed.

Lemma ring_at_spec (board : Grid) (i j : Z) (S : gset Cell) (colour : Cell) :
  wf_board board -> 1 <= i <= 18 -> 1 <= j <= 18 ->
  (S = {[ colour ]} <->
   forall n, n ∈ surround_reads i j -> board_get board n = Ok colour) ->
  exists b, ring_at board i j S colour = Ok b /\
            (b = true <-> ring_seen board colour i j).
Proof.
  intros Hwf Hi Hj HS. unfold ring_at, ring_seen.
  destruct (board_get_in_grid board (i, j) Hwf) as [c ->]; [split; simpl; lia |].
  simpl. eexists. split; [done |].
  rewrite andb_true_iff, !bool_decide_eq_true, HS. split.
  - intros [-> H]. done.
  - intros [[= ->] H]. done.
Qed.

Lemma ring_step_spec (board : Grid) (i j : Z) (rings : bool * bool) :
  wf_board board -> 1 <= i <= 18 -> 1 <= j <= 18 ->
  exists rings', ring_step board i rings j = Ok rings' /\
    (rings'.1 = true <-> rings.1 = true \/ ring_seen board Black i j) /\
    (rings'.2 = true <-> rings.2 = true \/ ring_seen board White i j).
Proof.
  intros Hwf Hi Hj. unfold ring_step.
  destruct (surround_spec board i j Hwf Hi Hj) as (S & -> & HS). simpl.
  destruct (ring_at_spec board i j S Black Hwf Hi Hj (HS Black)) as (b & -> & Hb).
  destruct (ring_at_spec board i j S White Hwf Hi Hj (HS White)) as (w & -> & Hw).
  simpl. eexists. split; [done |]. simpl.
  rewrite <- Hb, <- Hw. destruct b, w, rings as [[] []]; simpl; intuition congruence.
Qed.

Lemma ring_row_spec (board : Grid) (i : Z) (js : list Z) (rings : bool * bool) :
  wf_board board -> 1 <= i <= 18 -> (forall j, j ∈ js -> 1 <= j <= 18) ->
  exists rings', for_each (ring_step board i) rings js = Ok rings' /\
    (rings'.1 = true <->
       rings.1 = true \/ exists j, j ∈ js /\ ring_seen board Black i j) /\
    (rings'.2 = true <->
       rings.2 = true \/ exists j, j ∈ js /\ ring_seen board White i j).
Proof.
  intros Hwf Hi. revert rings. induction js as [| j js IH]; intros rings Hjs.
  - exists rings. split; [done |].
    split; (split; [auto |]; intros [H | (j & Hj & _)]; [done |];
            by apply elem_of_nil in Hj).
  - destruct (ring_step_spec board i j rings Hwf Hi) as (r1 & Hr1 & Hb1 & Hw1);
      [apply Hjs; left |].
    destruct (IH r1) as (r2 & Hr2 & Hb2 & Hw2); [intros; apply Hjs; by right |].
    exists r2. cbn [for_each]. rewrite Hr1. cbn [mbind result_bind].
    split; [done |]. rewrite Hb2, Hw2, Hb1, Hw1. clear.
    split; (split;
      [ intros [[H | H] | (j' & Hj' & H)]; auto;
        [ right; exists j; split; [left | done]
        | right; exists j'; split; [by right | done] ]
      | intros [H | (j' & Hj' & H)]; auto;
        apply elem_of_cons in Hj' as [-> | Hj']; [auto | right; eauto] ]).
Qed.

Lemma ring_rows_spec (board : Grid) (rows : list Z) (rings : bool * bool) :
  wf_board board -> (forall i, i ∈ rows -> 1 <= i <= 18) ->
  exists rings',
    for_each (fun rings i => for_each (ring_step board i) rings (py_range 1 19))
             rings rows = Ok rings' /\
    (rings'.1 = true <->
       rings.1 = true \/
       exists i j, i ∈ rows /\ 1 <= j <= 18 /\ ring_seen board Black i j) /\
    (rings'.2 = true <->
       rings.2 = true \/
       exists i j, i ∈ rows /\ 1 <= j <= 18 /\ ring_seen board White i j).
Proof.
  intros Hwf. revert rings. induction rows as [| i rows IH]; intros rings Hrows.
  - exists rings. split; [done |].
    split; (split; [auto |]; intros [H | (i & j & Hi & _)]; [done |];
            by apply elem_of_nil in Hi).
  - destruct (ring_row_spec board i (py_range 1 19) rings Hwf) as (r1 & Hr1 & Hb1 & Hw1);
      [apply Hrows; left | intros j Hj; apply elem_of_py_range in Hj; lia |].
    destruct (IH r1) as (r2 & Hr2 & Hb2 & Hw2); [intros; apply Hrows; by right |].
    exists r2. cbn [for_each]. rewrite Hr1. cbn [mbind result_bind].
    split; [done |]. rewrite Hb2, Hw2, Hb1, Hw1. clear.
    split; (split;
      [ intros [[H | (j & Hj & H)] | (i' & j & Hi' & Hj & H)]; auto;
        [ right; exists i, j; split; [left |]; split; [| done];
          apply elem_of_py_range in Hj; lia
        | right; exists i', j; split; [by right | done] ]
      | intros [H | (i' & j & Hi' & Hj & H)]; auto;
        apply elem_of_cons in Hi' as [-> | Hi'];
        [ left; right; exists j; split; [apply elem_of_py_range; lia | done]
        | right; eauto ] ]).
Qed.

(** The two flags after the double loop. *)
Lemma ring_scan_spec (board : Grid) :
  wf_board board ->
  exists black_ring white_ring,
    ring_scan board = Ok (black_ring, white_ring) /\
    (black_ring = true <-> ring_found board Black) /\
    (white_ring = true <-> ring_found board White).
Proof.
  intros Hwf. unfold ring_scan.
  destruct (ring_rows_spec board (py_range 1 19) (false, false) Hwf)
    as ([br wr] & -> & Hb & Hw).
  { intros i Hi. apply elem_of_py_range in Hi. lia. }
  exists br, wr. split; [done |]. simpl in Hb, Hw. unfold ring_found.
  rewrite Hb, Hw. clear.
  split; (split;
    [ intros [H | (i & j & Hi & Hj & H)]; [done |];
      exists i, j; apply elem_of_py_range in Hi; split; [lia |]; split; [lia | done]
    | intros (i & j & Hi & Hj & H); right; exists i, j;
      split; [apply elem_of_py_range; lia | done] ]).
Qed.

(** The verdict in terms of the two flags of the scan, in the order of the
    final tests of [check_win]: no black flag gives WHITE_WON, otherwise no
    white flag gives BLACK_WON, otherwise UNFINISHED.  The flags are those of
    [ring_found], which follows the places the scan reads, not the eight
    neighbours of the rules. *)
Lemma check_win_of_flags (g : GessGame) :
  wf_board (_game_board g) ->
  (~ ring_found (_game_board g) Black -> check_win g = Ok WHITE_WON) /\
  (ring_found (_game_board g) Black -> ~ ring_found (_game_board g) White ->
   check_win g = Ok BLACK_WON) /\
  (ring_found (_game_board g) Black -> ring_found (_game_board g) White ->
   check_win g = Ok UNFINISHED).
Proof.
  intros Hwf. unfold check_win.
  destruct (ring_scan_spec (_game_board g) Hwf) as (br & wr & -> & Hb & Hw).
  cbn [mbind result_bind fst snd].
  destruct br, wr; simpl; intuition congruence.
Qed.

(** For a given board the two flags decide [ring_found]. *)
Lemma ring_found_by_scan (board : Grid) (black_ring white_ring : bool) :
  wf_board board -> ring_scan board = Ok (black_ring, white_ring) ->
  (ring_found board Black <-> black_ring = true) /\
  (ring_found board White <-> white_ring = true).
Proof.
  intros Hwf Hscan.
  destruct (ring_scan_spec board Hwf) as (br & wr & Hscan' & Hb & Hw).
  rewrite Hscan in Hscan'. injection Hscan' as -> ->. by rewrite Hb, Hw.
Qed.

(** *** The neighbour set of the scan against the eight neighbours *)

Lemma ring_enclosed_b_spec (board : Grid) (colour : Cell) :
  ring_enclosed board colour <-> ring_enclosed_b board colour = true.
Proof.
  unfold ring_enclosed, ring_enclosed_b. rewrite existsb_exists. split.
  - intros (i & j & Hi & Hj & Hc & Hn). exists i.
    split; [apply list_elem_of_In, elem_of_py_range; lia |].
    apply existsb_exists. exists j.
    split; [apply list_elem_of_In, elem_of_py_range; lia |].
    unfold enclosed_at. rewrite andb_true_iff, bool_decide_eq_true, forallb_forall.
    split; [done |]. intros n Hin. apply bool_decide_eq_true, Hn.
    by apply list_elem_of_In.
  - intros (i & Hi & H). apply existsb_exists in H as (j & Hj & H).
    apply list_elem_of_In, elem_of_py_range in Hi, Hj.
    unfold enclosed_at in H.
    rewrite andb_true_iff, bool_decide_eq_true, forallb_forall in H.
    destruct H as [Hc Hn]. exists i, j. repeat split; try lia; [done |].
    intros n Hin. apply list_elem_of_In in Hin.
    apply Hn in Hin. by apply bool_decide_eq_true in Hin.
Qed.

(** Every ring in the sense of the rules is found by the scan; the converse
    fails, see below. *)
Lemma ring_enclosed_found (board : Grid) (colour : Cell) :
  ring_enclosed board colour -> ring_found board colour.
Proof.
  intros (i & j & Hi & Hj & Hc & Hn). exists i, j.
  split; [done |]. split; [done |]. split; [done |].
  intros n Hin. apply Hn. revert Hin. unfold surround_reads, neighbours.
  rewrite !elem_of_cons, !elem_of_nil. tauto.
Qed.

(** C3 fails on [board_open_ring]: black has no empty point with eight black
    neighbours, since (5, 6) is empty, yet the scan sets [black_ring], as
    [surround] never reads [board[i][j+1]]; [check_win] answers UNFINISHED
    where black has lost its ring. *)
Theorem check_win_accepts_open_ring :
  ring_scan board_open_ring = Ok (true, true) /\
  check_win (mkGame UNFINISHED BLACK board_open_ring) = Ok UNFINISHED /\
  board_get board_open_ring (5, 6) = Ok Empty /\
  ~ ring_enclosed board_open_ring Black.
Proof.
  split; [vm_compute; reflexivity |]. split; [vm_compute; reflexivity |].
  split; [vm_compute; reflexivity |].
  rewrite ring_enclosed_b_spec. vm_compute. discriminate.
Qed.

(** C8 fails on [board_seven_stones]: neither colour has an empty interior
    point with eight neighbours of its colour, yet [check_win] answers
    BLACK_WON, not WHITE_WON.  The verdict follows the flags of the scan, and
    the scan sets [black_ring] at (5, 5) with the neighbour (5, 6) empty, as
    [surround] never reads [board[i][j+1]]; with no black ring on the board
    the first test [if not black_ring] should have answered WHITE_WON. *)
Theorem check_win_black_wins_without_ring :
  wf_board board_seven_stones /\
  board_get board_seven_stones (5, 5) = Ok Empty /\
  board_get board_seven_stones (5, 6) = Ok Empty /\
  ~ ring_enclosed board_seven_stones Black /\
  ~ ring_enclosed board_seven_stones White /\
  ring_scan board_seven_stones = Ok (true, false) /\
  check_win (mkGame UNFINISHED BLACK board_seven_stones) = Ok BLACK_WON.
Proof.
  split; [refine (bool_decide_unpack _ _); vm_compute; exact I |].
  split; [vm_compute; reflexivity |]. split; [vm_compute; reflexivity |].
  split; [rewrite ring_enclosed_b_spec; vm_compute; discriminate |].
  split; [rewrite ring_enclosed_b_spec; vm_compute; discriminate |].
  split; vm_compute; reflexivity.
Qed.

(** ** Relocation: [Piece.move] and the border clean-up *)

Lemma for_each_ext {A S : Type} (body1 body2 : S -> A -> result S) (l : list A) (s : S) :
  (forall s a, a ∈ l -> body1 s a = body2 s a) ->
  for_each body1 s l = for_each body2 s l.
Proof.
  revert s. induction l as [| a l IH]; intros s Hext; simpl; [done |].
  rewrite Hext by left. destruct (body2 s a); simpl; [| done ..].
  apply IH. intros. apply Hext. by right.
Qed.

(** A loop of writes, each element [x] writing [v] at [t] when
    [w x = Some (t, v)]; the value written at a place depends on the place
    only ([val]), so the order of the writes is immaterial. *)
Lemma write_loop_spec {A : Type} (w : A -> option (coord * Cell)) (val : coord -> Cell)
      (l : list A) (board : Grid) :
  wf_board board ->
  (forall x t v, x ∈ l -> w x = Some (t, v) -> in_grid t /\ v = val t) ->
  exists board',
    for_each (fun b x => match w x with
                         | Some (t, v) => board_set b t v
                         | None => Ok b
                         end) board l = Ok board' /\
    wf_board board' /\
    forall q, in_grid q ->
      board_get board' q =
      if decide (q ∈ omap (fun x => fst <$> w x) l) then Ok (val q)
      else board_get board q.
Proof.
  revert board. induction l as [| x l IH]; intros board Hwf Hw.
  - exists board. split; [done |]. split; [done |]. intros q Hq. simpl.
    destruct (decide (q ∈ [])) as [Hin | _]; [by apply elem_of_nil in Hin | done].
  - cbn [for_each omap list_omap]. destruct (w x) as [[t v] |] eqn:Hwx.
    + destruct (Hw x t v) as [Ht ->]; [left | done |].
      destruct (board_set_in_grid board t (val t) Hwf Ht) as (b1 & -> & Hwf1 & Hget1).
      cbn [mbind result_bind].
      destruct (IH b1 Hwf1) as (b2 & -> & Hwf2 & Hget2).
      { intros x' t' v' Hx'. apply Hw. by right. }
      exists b2. split; [done |]. split; [done |]. intros q Hq.
      rewrite (Hget2 q Hq), (Hget1 q Hq). simpl.
      repeat case_decide; try done; subst; set_solver.
    + cbn [mbind result_bind].
      destruct (IH board Hwf) as (b2 & -> & Hwf2 & Hget2).
      { intros x' t' v' Hx'. apply Hw. by right. }
      exists b2. split; [done |]. split; [done |]. intros q Hq.
      by rewrite (Hget2 q Hq).
Qed.

(** The border set of the board. *)
Lemma elem_of_border (q : coord) :
  q ∈ Board.border <->
  in_grid q /\ (q.1 = 0 \/ q.1 = 19 \/ q.2 = 0 \/ q.2 = 19).
Proof.
  unfold Board.border, in_grid. destruct q as [r c]. cbn [fst snd].
  rewrite !elem_of_union, !elem_of_list_to_set, !list_elem_of_fmap.
  setoid_rewrite elem_of_py_range. split.
  - intros [[[(i & [= -> ->] & Hi) | (i & [= -> ->] & Hi)]
            | (i & [= -> ->] & Hi)] | (i & [= -> ->] & Hi)]; lia.
  - intros [[Hr Hc] [-> | [-> | [-> | ->]]]].
    + left; left; left. exists c. split; [done | lia].
    + left; left; right. exists c. split; [done | lia].
    + left; right. exists r. split; [done | lia].
    + right. exists r. split; [done | lia].
Qed.

(** The dictionary [mov_map] after its loop. *)
Lemma mov_map_loop_spec (board : Grid) (disp : coord) (l : list coord)
      (m0 m : gmap coord Cell) :
  for_each (fun (m : gmap coord Cell) position =>
              v ← board_get board position;
              Ok (<[ (position.1 + disp.1, position.2 + disp.2) := v ]> m)) m0 l = Ok m ->
  forall k,
    m !! k =
    if decide ((k.1 - disp.1, k.2 - disp.2) ∈ l)
    then match board_get board (k.1 - disp.1, k.2 - disp.2) with
         | Ok v => Some v
         | _ => None
         end
    else m0 !! k.
Proof.
  revert m0. induction l as [| c l IH]; intros m0 H k; cbn [for_each] in H.
  - injection H as <-.
    destruct (decide (_ ∈ [])) as [Hin | _]; [by apply elem_of_nil in Hin | done].
  - apply bind_Ok in H as (m1 & H1 & H2).
    apply bind_Ok in H1 as (v & Hv & H1). injection H1 as <-.
    rewrite (IH _ H2 k). clear IH H2.
    destruct (decide ((k.1 - disp.1, k.2 - disp.2) ∈ l)) as [Hin | Hnin].
    + rewrite decide_True by (by right). done.
    + destruct (decide (k = (c.1 + disp.1, c.2 + disp.2))) as [-> | Hne].
      * rewrite lookup_insert_eq. simpl.
        replace (c.1 + disp.1 - disp.1, c.2 + disp.2 - disp.2) with c
          by (destruct c; simpl; f_equal; lia).
        rewrite decide_True by left. by rewrite Hv.
      * rewrite lookup_insert_ne by done.
        rewrite decide_False; [done |].
        intros [Heq | Hin]%elem_of_cons; [| done].
        apply Hne. rewrite <- Heq. destruct k; simpl; f_equal; lia.
Qed.

(** The grid and the key set that [move] hands back, for a piece whose nine
    cells and their images all lie on the grid. *)
Lemma move_spec (p : Piece) (location : coord) :
  wf_board (_board p) ->
  let disp := (location.1 - _x_coord p, location.2 - _y_coord p) in
  (forall c, c ∈ _area p -> in_grid c /\ in_grid (c.1 + disp.1, c.2 + disp.2)) ->
  exists board' new,
    move p location = Ok (board', new) /\ wf_board board' /\
    (forall q, q ∈ new <-> back disp q ∈ _area p) /\
    forall q, in_grid q ->
      board_get board' q =
      if decide (back disp q ∈ _area p) then board_get (_board p) (back disp q)
      else if decide (q ∈ _area p) then Ok Empty
      else board_get (_board p) q.
Proof.
  intros Hwf disp Harea. unfold move. fold disp. cbv zeta.
  change (location.1 - _x_coord p) with disp.1.
  change (location.2 - _y_coord p) with disp.2.
  clearbody disp.
  (* the dictionary *)
  destruct (for_each_returns
              (fun (m : gmap coord Cell) position =>
                 v ← board_get (_board p) position;
                 Ok (<[ (position.1 + disp.1, position.2 + disp.2) := v ]> m))
              (_area p) ∅) as [m Hm].
  { intros m c Hc. destruct (Harea c Hc) as [Hg _].
    destruct (board_get_in_grid _ c Hwf Hg) as [v ->]. cbn [mbind result_bind]. eauto. }
  rewrite Hm. cbn [mbind result_bind].
  pose proof (mov_map_loop_spec _ _ _ _ _ Hm) as Hmap.
  assert (Hkey : forall c, c ∈ _area p ->
            exists v, board_get (_board p) c = Ok v /\
                      m !! (c.1 + disp.1, c.2 + disp.2) = Some v).
  { intros c Hc. destruct (Harea c Hc) as [Hg _].
    destruct (board_get_in_grid _ c Hwf Hg) as [v Hv]. exists v. split; [done |].
    rewrite Hmap. cbn [fst snd].
    replace (c.1 + disp.1 - disp.1, c.2 + disp.2 - disp.2) with c
      by (destruct c; simpl; f_equal; lia).
    rewrite decide_True by done. by rewrite Hv. }
  (* clearing the old places *)
  destruct (write_loop_spec (fun position : coord => Some (position, Empty))
                            (fun _ => Empty) (_area p) (_board p) Hwf)
    as (b1 & Hb1 & Hwf1 & Hget1).
  { intros c t v Hc [= <- <-]. split; [apply (Harea c Hc) | done]. }
  cbn beta iota in Hb1. rewrite Hb1. cbn [mbind result_bind].
  (* writing the new places *)
  set (val := fun t : coord => match board_get (_board p) (back disp t) with
                               | Ok v => v
                               | _ => Empty
                               end).
  destruct (write_loop_spec
              (fun position : coord =>
                 (fun v => ((position.1 + disp.1, position.2 + disp.2), v)) <$>
                 m !! (position.1 + disp.1, position.2 + disp.2))
              val (_area p) b1 Hwf1) as (b2 & Hb2 & Hwf2 & Hget2).
  { intros c t v Hc Hw. destruct (Hkey c Hc) as (v' & Hv' & Hm').
    rewrite Hm' in Hw. injection Hw as <- <-.
    split; [apply (Harea c Hc) |]. unfold val, back. cbn [fst snd].
    replace (c.1 + disp.1 - disp.1, c.2 + disp.2 - disp.2) with c
      by (destruct c; simpl; f_equal; lia).
    by rewrite Hv'. }
  erewrite for_each_ext; [rewrite Hb2 |].
  2:{ intros b c Hc. destruct (Hkey c Hc) as (v' & _ & ->). done. }
  cbn [mbind result_bind].
  exists b2, (dom m). split; [done |]. split; [done |].
  assert (Hdom : forall q, q ∈ dom m <-> back disp q ∈ _area p).
  { intros q. rewrite elem_of_dom, Hmap. unfold back. case_decide as Hin.
    - split; [done |]. intros _. destruct (Harea _ Hin) as [Hg _].
      destruct (board_get_in_grid _ _ Hwf Hg) as [v ->]. eauto.
    - rewrite lookup_empty. split; [by intros [? ?] | done]. }
  split; [exact Hdom |].
  intros q Hq. rewrite (Hget2 q Hq).
  assert (Htargets : q ∈ omap (fun position : coord =>
                        fst <$> ((fun v => ((position.1 + disp.1, position.2 + disp.2), v)) <$>
                                 m !! (position.1 + disp.1, position.2 + disp.2)))
                      (_area p) <-> back disp q ∈ _area p).
  { rewrite list_elem_of_omap. split.
    - intros (c & Hc & Hw). destruct (Hkey c Hc) as (v' & _ & Hm').
      rewrite Hm' in Hw. injection Hw as <-. unfold back. cbn [fst snd].
      replace (c.1 + disp.1 - disp.1, c.2 + disp.2 - disp.2) with c
        by (destruct c; simpl; f_equal; lia). done.
    - intros Hin. exists (back disp q). split; [done |].
      destruct (Hkey _ Hin) as (v' & _ & Hm'). rewrite Hm'. cbn [fmap option_fmap option_map fst snd]. f_equal.
      unfold back. destruct q; cbn [fst snd]; f_equal; lia. }
  destruct (decide (back disp q ∈ _area p)) as [Hin | Hnin].
  - rewrite decide_True by (by apply Htargets).
    unfold val. destruct (Harea _ Hin) as [Hg _].
    by destruct (board_get_in_grid _ _ Hwf Hg) as [v ->].
  - rewrite decide_False by (by rewrite Htargets).
    rewrite (Hget1 q Hq).
    assert (Hclr : q ∈ omap (fun position : coord => fst <$> Some (position, Empty))
                     (_area p) <-> q ∈ _area p).
    { rewrite list_elem_of_omap. split.
      - by intros (c & Hc & [= ->]).
      - intros Hin. by exists q. }
    destruct (decide (q ∈ _area p)) as [Hin | Hnin'].
    + by rewrite decide_True by (by apply Hclr).
    + by rewrite decide_False by (by rewrite Hclr).
Qed.

(** The grid after the clean-up loop of [make_move]. *)
Lemma clear_border_spec (board : Grid) (new : gset coord) :
  wf_board board ->
  exists board', clear_border board new = Ok board' /\ wf_board board' /\
    forall q, in_grid q ->
      board_get board' q =
      if decide (q ∈ new /\ q ∈ Board.border) then Ok Empty else board_get board q.
Proof.
  intros Hwf. unfold clear_border.
  destruct (write_loop_spec
              (fun stone : coord =>
                 if decide (stone ∈ Board.border) then Some (stone, Empty) else None)
              (fun _ => Empty) (elements new) board Hwf) as (b1 & Hb1 & Hwf1 & Hget1).
  { intros c t v _ Hw. case_decide as Hb; [| done]. injection Hw as <- <-.
    split; [by apply elem_of_border in Hb as [Hb _] | done]. }
  erewrite for_each_ext; [rewrite Hb1 |].
  2:{ intros b c _. simpl. by case_decide. }
  exists b1. split; [done |]. split; [done |]. intros q Hq. rewrite (Hget1 q Hq).
  assert (Hiff : q ∈ omap (fun stone : coord =>
                    fst <$> (if decide (stone ∈ Board.border)
                             then Some (stone, Empty) else None)) (elements new)
                 <-> q ∈ new /\ q ∈ Board.border).
  { rewrite list_elem_of_omap. setoid_rewrite elem_of_elements. split.
    - intros (c & Hc & Hw). case_decide; [| done]. by injection Hw as ->.
    - intros [Hn Hb]. exists q. split; [done |]. by rewrite decide_True. }
  destruct (decide (q ∈ new /\ q ∈ Board.border)) as [Hin | Hnin].
  - by rewrite decide_True by (by apply Hiff).
  - by rewrite decide_False by (by rewrite Hiff).
Qed.

(** What an accepted move went through. *)
Lemma make_move_success_inv
      (py_int : string -> option Z) (area_order : coord -> list coord)
      (g g' : GessGame) (start_center end_center : string) :
  make_move py_int area_order g start_center end_center = Ok (true, g') ->
  exists s e p valid moved board' state,
    _game_state g = UNFINISHED /\
    border_guard py_int start_center = Ok false /\
    border_guard py_int end_center = Ok false /\
    decode py_int start_center = Ok s /\
    decode py_int end_center = Ok e /\
    Piece_init area_order (s.1, s.2) (_game_board g) = Ok p /\
    valid_moves p = Ok valid /\ (e.1, e.2) ∈ valid /\
    check_obstruction g s.1 s.2 e.1 e.2 p = Ok false /\
    move p (e.1, e.2) = Ok moved /\
    clear_border moved.1 moved.2 = Ok board' /\
    check_win (mkGame (_game_state g) (_current_player g) board') = Ok state /\
    g' = mkGame state
                (if decide (state = UNFINISHED)
                 then flip (_current_player g) else _current_player g)
                board'.
Proof.
  unfold make_move. intros H.
  destruct (decide (_game_state g ≠ UNFINISHED)) as [| Hst]; [discriminate |].
  apply dec_stable in Hst.
  apply bind_Ok in H as ([] & Hsb & H); [discriminate |].
  apply bind_Ok in H as ([] & Heb & H); [discriminate |].
  apply bind_Ok in H as (s & Hs & H). cbv zeta in H.
  apply bind_Ok in H as (p & Hp & H).
  apply bind_Ok in H as (c1 & _ & H).
  apply bind_Ok in H as ([] & _ & H); [discriminate |].
  apply bind_Ok in H as ([] & _ & H); [discriminate |].
  apply bind_Ok in H as ([] & _ & H); [discriminate |].
  apply bind_Ok in H as (e & He & H).
  apply bind_Ok in H as (valid & Hvalid & H).
  destruct (decide ((e.1, e.2) ∉ valid)) as [| Hin]; [discriminate |].
  apply dec_stable in Hin.
  apply bind_Ok in H as ([] & Hobs & H); [discriminate |].
  apply bind_Ok in H as (moved & Hmoved & H).
  apply bind_Ok in H as (board' & Hboard' & H).
  apply bind_Ok in H as (state & Hstate & H).
  exists s, e, p, valid, moved, board', state.
  repeat (split; [done |]).
  destruct (decide (state = UNFINISHED)); by injection H as <-.
Qed.

(** C4. After a successful [make_move] between two strictly interior
    anchors, with [D] the displacement: each destination cell (a source cell
    plus [D]) off the border ring holds what its source cell held, each
    destination cell on the border ring is empty, each source cell that is
    not a destination cell is empty, and every other cell of the grid is
    unchanged; overlapping footprints make no difference. *)
Theorem make_move_relocates
        (py_int : string -> option Z) (area_order : coord -> list coord)
        (g g' : GessGame) (start_center end_center : string) (s e : coord) :
  wf_board (_game_board g) ->
  area_order s ≡ₚ area_cells s ->
  decode py_int start_center = Ok s ->
  decode py_int end_center = Ok e ->
  1 <= s.1 <= 18 -> 1 <= s.2 <= 18 -> 1 <= e.1 <= 18 -> 1 <= e.2 <= 18 ->
  make_move py_int area_order g start_center end_center = Ok (true, g') ->
  let D := (e.1 - s.1, e.2 - s.2) in
  let on_border (q : coord) := q.1 = 0 \/ q.1 = 19 \/ q.2 = 0 \/ q.2 = 19 in
  let dest (c : coord) := (c.1 + D.1, c.2 + D.2) in
  (forall c, c ∈ area_cells s -> ~ on_border (dest c) ->
     board_get (_game_board g') (dest c) = board_get (_game_board g) c) /\
  (forall c, c ∈ area_cells s -> on_border (dest c) ->
     board_get (_game_board g') (dest c) = Ok Empty) /\
  (forall c, c ∈ area_cells s -> (forall c', c' ∈ area_cells s -> c ≠ dest c') ->
     board_get (_game_board g') c = Ok Empty) /\
  (forall q, in_grid q -> q ∉ area_cells s ->
     (forall c', c' ∈ area_cells s -> q ≠ dest c') ->
     board_get (_game_board g') q = board_get (_game_board g) q).
Proof.
  intros Hwf Hperm Hs He Hs1 Hs2 He1 He2 Hmove D on_border dest.
  apply make_move_success_inv in Hmove
    as (s' & e' & p & valid & moved & board' & state & _ & _ & _ & Hs' & He' & Hp & _ & _
        & _ & Hmoved & Hboard' & _ & ->).
  rewrite Hs in Hs'. injection Hs' as <-. rewrite He in He'. injection He' as <-.
  replace (s.1, s.2) with s in Hp by (by destruct s).
  apply Piece_init_fields in Hp as (_ & Hx & Hy & Harea & Hboard & _).
  cbn [_game_board].
  assert (Hmem : forall c, c ∈ _area p <-> c ∈ area_cells s).
  { intros c. by rewrite Harea, Hperm. }
  destruct (move_spec p (e.1, e.2)) as (b2 & new & Hmoved' & Hwf2 & Hnew & Hget2).
  { by rewrite Hboard. }
  { intros c Hc. apply Hmem, elem_of_area_cells in Hc.
    rewrite Hx, Hy. unfold in_grid. simpl. lia. }
  rewrite Hmoved' in Hmoved. injection Hmoved as <-. cbn [fst snd] in *.
  rewrite Hx, Hy, Hboard in *.
  destruct (clear_border_spec b2 new Hwf2) as (b3 & Hb3 & _ & Hget3).
  rewrite Hb3 in Hboard'. injection Hboard' as <-.
  assert (Hback : forall c, back D (dest c) = c).
  { intros [cx cy]. unfold back, dest, D. simpl. f_equal; lia. }
  assert (Hgrid : forall c, c ∈ area_cells s -> in_grid c /\ in_grid (dest c)).
  { intros c Hc. apply elem_of_area_cells in Hc.
    unfold in_grid, dest, D. simpl. lia. }
  fold D in Hnew, Hget2.
  repeat split.
  - intros c Hc Hnb. destruct (Hgrid c Hc) as [_ Hd].
    rewrite (Hget3 _ Hd), decide_False.
    + rewrite (Hget2 _ Hd), Hback. by rewrite decide_True by (by apply Hmem).
    + intros [_ Hb]. apply elem_of_border in Hb as [_ Hb]. by apply Hnb.
  - intros c Hc Hb. destruct (Hgrid c Hc) as [_ Hd].
    rewrite (Hget3 _ Hd), decide_True; [done |]. split.
    + apply Hnew. rewrite Hback. by apply Hmem.
    + by apply elem_of_border.
  - intros c Hc Hnd. destruct (Hgrid c Hc) as [Hcg _].
    assert (Hnot : back D c ∉ _area p).
    { intros Hin. apply Hmem in Hin. apply (Hnd _ Hin).
      unfold back, dest. destruct c; simpl; f_equal; lia. }
    rewrite (Hget3 _ Hcg), decide_False by (intros [Hin _]; by apply Hnew in Hin).
    rewrite (Hget2 _ Hcg), decide_False by done.
    by rewrite decide_True by (by apply Hmem).
  - intros q Hq Hns Hnd.
    assert (Hnot : back D q ∉ _area p).
    { intros Hin. apply Hmem in Hin. apply (Hnd _ Hin).
      unfold back, dest. destruct q; simpl; f_equal; lia. }
    rewrite (Hget3 _ Hq), decide_False by (intros [Hin _]; by apply Hnew in Hin).
    rewrite (Hget2 _ Hq), decide_False by done.
    by rewrite decide_False by (by rewrite Hmem).
Qed.

Lemma make_move_relocates_witness :
  exists g', make_move int_of_decimal area_cells new_game "c3" "c4" = Ok (true, g') /\
    board_get (_game_board g') (2, 3) = board_get (_game_board new_game) (2, 2) /\
    board_get (_game_board g') (2, 1) = Ok Empty.
Proof.
  destruct (make_move int_of_decimal area_cells new_game "c3" "c4") as [[[] g'] | |] eqn:E;
    try (vm_compute in E; discriminate).
  exists g'. split; [reflexivity |].
  assert (Hwf : wf_board (_game_board new_game)).
  { refine (bool_decide_unpack _ _). vm_compute. exact I. }
  destruct (make_move_relocates int_of_decimal area_cells new_game g' "c3" "c4"
              (2, 2) (2, 3) Hwf (reflexivity _))
    as (Hdest & _ & Hsrc & _);
    [vm_compute; reflexivity | vm_compute; reflexivity
    | simpl; lia | simpl; lia | simpl; lia | simpl; lia | exact E |].
  split.
  - apply (Hdest (2, 2)).
    + apply elem_of_area_cells. simpl. lia.
    + simpl. lia.
  - apply (Hsrc (2, 1)).
    + apply elem_of_area_cells. simpl. lia.
    + intros c' Hc' [= Hx Hy]. apply elem_of_area_cells in Hc'. simpl in *. lia.
Defined.

(** ** The sliding path: [check_obstruction] *)

Lemma stepped_inj (point sh : coord) (j k : Z) :
  sh ≠ (0, 0) -> stepped point j sh = stepped point k sh -> j = k.
Proof.
  unfold stepped. destruct point as [x y], sh as [sx sy]. simpl.
  intros Hsh [= Hx Hy].
  destruct (decide (sx = 0)) as [-> | Hsx].
  - assert (sy ≠ 0) by congruence. nia.
  - nia.
Qed.

Lemma walk_unfold (fuel : nat) (board : Grid) (space : list coord)
      (point dest sh check : coord) (scale : Z) :
  walk (S fuel) board space point dest sh check scale =
  if decide (check ≠ dest)
  then hit ← (if decide (stepped point scale sh ∉ space)
              then v ← board_get board (stepped point scale sh);
                   Ok (bool_decide (v ≠ Empty))
              else Ok false);
       if hit && bool_decide (stepped point scale sh ≠ dest)
       then Ok ReturnTrue
       else walk fuel board space point dest sh (stepped point scale sh) (scale + 1)
  else Ok (LoopDone check).
Proof.
  cbn [walk]. cbv zeta.
  replace (point.1 + sh.1 * scale, point.2 + sh.2 * scale)
    with (stepped point scale sh) by (unfold stepped; f_equal; lia).
  done.
Qed.

(** One point's walk towards its destination [point + n * sh]: it returns
    True at the first place strictly before the destination that is a
    [hit], and otherwise leaves [check] on the destination. *)
Lemma walk_spec (board : Grid) (space : list coord) (point sh : coord) (n : Z) :
  sh ≠ (0, 0) ->
  (forall k, 1 <= k <= n ->
     stepped point k sh ∈ space \/ exists v, board_get board (stepped point k sh) = Ok v) ->
  forall fuel scale check,
    1 <= scale <= n -> check ≠ stepped point n sh ->
    (Z.to_nat (n - scale) + 2 <= fuel)%nat ->
    (walk fuel board space point (stepped point n sh) sh check scale = Ok ReturnTrue /\
     exists k, scale <= k < n /\ hit board space (stepped point k sh)) \/
    (walk fuel board space point (stepped point n sh) sh check scale
       = Ok (LoopDone (stepped point n sh)) /\
     ~ exists k, scale <= k < n /\ hit board space (stepped point k sh)).
Proof.
  intros Hsh Hread. induction fuel as [| fuel IH]; intros scale check Hscale Hcheck Hfuel;
    [lia |].
  rewrite walk_unfold. rewrite decide_True by done.
  set (q := stepped point scale sh).
  assert (Hq : exists h, (if decide (q ∉ space)
                          then v ← board_get board q; Ok (bool_decide (v ≠ Empty))
                          else Ok false) = Ok h /\
                         (h = true <-> hit board space q)).
  { unfold hit. destruct (decide (q ∉ space)) as [Hout | Hin].
    - destruct (Hread scale) as [Hin | [v Hv]]; [lia | done |].
      fold q in Hv. rewrite Hv. cbn [mbind result_bind]. eexists. split; [done |].
      rewrite bool_decide_eq_true. split.
      + intros Hne. split; [done |]. eauto.
      + intros (_ & v' & [= <-] & Hne). done.
    - exists false. split; [done |]. split; [done |]. intros [Hout _]. done. }
  destruct Hq as (h & -> & Hh). cbn [mbind result_bind].
  destruct (decide (scale = n)) as [-> | Hlt].
  - (* the destination itself: never a reason to return *)
    fold q. rewrite (bool_decide_eq_false_2 (q ≠ q)) by (intros H; by apply H).
    rewrite andb_false_r.
    destruct fuel as [| fuel]; [lia |].
    rewrite walk_unfold, decide_False by (intros H; by apply H).
    right. split; [done |]. intros (k & Hk & _). lia.
  - assert (Hqd : q ≠ stepped point n sh).
    { intros Heq. apply stepped_inj in Heq; [lia | done]. }
    rewrite (bool_decide_eq_true_2 _ Hqd), andb_true_r.
    destruct h.
    + left. split; [done |]. exists scale. split; [lia |]. by apply Hh.
    + destruct (IH (scale + 1) q) as [[Hr (k & Hk & Hhit)] | [Hr Hnone]];
        [lia | done | lia | |].
      * left. split; [done |]. exists k. split; [lia | done].
      * right. split; [done |]. intros (k & Hk & Hhit).
        destruct (decide (k = scale)) as [-> | Hne].
        -- apply Hh in Hhit. done.
        -- apply Hnone. exists k. split; [lia | done].
Qed.

(** The loop over the points of the area. [check] enters each walk holding
    the destination of the point before, or (0, 0) for the first point. *)
Lemma scan_points_spec (board : Grid) (space : list coord) (sh : coord) (n : Z) :
  sh ≠ (0, 0) -> 1 <= n <= 62 ->
  forall points check,
    NoDup points ->
    (forall point k, point ∈ points -> 1 <= k <= n ->
       stepped point k sh ∈ space \/
       exists v, board_get board (stepped point k sh) = Ok v) ->
    (forall point, head points = Some point -> check ≠ stepped point n sh) ->
    exists b,
      scan_points board space (n * sh.1, n * sh.2) sh check points = Ok b /\
      (b = true <->
       exists point k, point ∈ points /\ 1 <= k < n /\
                       hit board space (stepped point k sh)).
Proof.
  intros Hsh Hn. induction points as [| point rest IH]; intros check Hnd Hread Hhead.
  - exists false. split; [done |]. split; [done |].
    intros (point & k & Hin & _). by apply elem_of_nil in Hin.
  - cbn [scan_points fst snd].
    change (point.1 + n * sh.1, point.2 + n * sh.2) with (stepped point n sh).
    pose proof (NoDup_cons_1_1 _ _ Hnd) as Hnotin. apply NoDup_cons_1_2 in Hnd.
    destruct (walk_spec board space point sh n Hsh) with (fuel := loop_fuel)
      (scale := 1) (check := check) as [[-> Hex] | [-> Hnex]].
    { intros k Hk. apply Hread; [left | done]. }
    { lia. }
    { by apply Hhead. }
    { unfold loop_fuel. lia. }
    + cbn [mbind result_bind]. exists true. split; [done |]. split; [| done].
      intros _. destruct Hex as (k & Hk & Hhit). exists point, k.
      split; [left | done].
    + cbn [mbind result_bind].
      destruct (IH (stepped point n sh)) as (b & -> & Hb); [done | | |].
      { intros pt k Hpt. apply Hread. by right. }
      { intros pt Hpt Heq. apply Hnotin.
        assert (pt = point) as <-.
        { unfold stepped in Heq. injection Heq as Hx Hy.
          destruct pt, point; simpl in *; f_equal; lia. }
        destruct rest; [done |]. injection Hpt as ->. left. }
      exists b. split; [done |]. rewrite Hb. split.
      * intros (pt & k & Hpt & Hk & Hhit). exists pt, k. split; [by right | done].
      * intros (pt & k & Hpt & Hk & Hhit).
        apply elem_of_cons in Hpt as [-> | Hpt].
        -- exfalso. apply Hnex. eauto.
        -- eauto.
Qed.

(** The directions that [__init__] collects in [_filled]. *)
Lemma filled_loop_spec (board : Grid) (c : coord) (l : list coord) (acc S : gset coord) :
  for_each (fun (acc : gset coord) pos =>
              v ← board_get board pos;
              Ok (if decide (v ≠ Empty)
                  then {[ (pos.1 - c.1, pos.2 - c.2) ]} ∪ acc else acc)) acc l = Ok S ->
  forall d, d ∈ S <->
    d ∈ acc \/
    exists pos v, pos ∈ l /\ d = (pos.1 - c.1, pos.2 - c.2) /\
                  board_get board pos = Ok v /\ v ≠ Empty.
Proof.
  revert acc. induction l as [| pos l IH]; intros acc H d; cbn [for_each] in H.
  - injection H as <-. split; [auto |]. intros [H | (pos & v & Hpos & _)]; [done |].
    by apply elem_of_nil in Hpos.
  - apply bind_Ok in H as (acc1 & H1 & H2).
    apply bind_Ok in H1 as (v & Hv & H1). injection H1 as <-.
    rewrite (IH _ H2 d). clear IH H2. split.
    + intros [Hd | (pos' & v' & Hpos' & Hd & Hv')].
      * destruct (decide (v ≠ Empty)) as [Hne | _]; [| by left].
        apply elem_of_union in Hd as [Hd | Hd]; [| by left].
        apply elem_of_singleton in Hd. right. exists pos, v. split; [left | done].
      * right. exists pos', v'. split; [by right | done].
    + intros [Hd | (pos' & v' & Hpos' & Hd & Hv' & Hne)].
      * left. destruct (decide (v ≠ Empty)); [apply elem_of_union; by right | done].
      * apply elem_of_cons in Hpos' as [-> | Hpos'].
        -- left. rewrite Hv in Hv'. injection Hv' as <-.
           rewrite decide_True by done. apply elem_of_union. left.
           by apply elem_of_singleton.
        -- right. exists pos', v'. done.
Qed.

Lemma Piece_init_filled (area_order : coord -> list coord) (c : coord) (board : Grid)
      (p : Piece) :
  Piece_init area_order c board = Ok p ->
  forall d, d ∈ _filled p <->
    d ≠ (0, 0) /\
    exists pos v, pos ∈ area_order c /\ d = (pos.1 - c.1, pos.2 - c.2) /\
                  board_get board pos = Ok v /\ v ≠ Empty.
Proof.
  unfold Piece_init. cbv zeta. intros H d.
  apply bind_Ok in H as (filled & Hfilled & H).
  apply bind_Ok in H as (v & _ & H). injection H as <-. cbn [_filled].
  rewrite elem_of_difference, elem_of_singleton.
  rewrite (filled_loop_spec _ _ _ _ _ Hfilled d). split.
  - intros [[H0 | H] Hne]; [done | done].
  - intros [Hne H]. split; [by right | done].
Qed.

(** Every reachable target lies [k >= 1] unit steps away along one of the
    eight directions. *)
Lemma valid_moves_direction (area_order : coord -> list coord) (c e : coord)
      (board : Grid) (p : Piece) (valid : gset coord) :
  area_order c ≡ₚ area_cells c ->
  Piece_init area_order c board = Ok p ->
  valid_moves p = Ok valid -> e ∈ valid ->
  exists d k, 1 <= k /\ e = stepped c k d /\ d ≠ (0, 0) /\
              -1 <= d.1 <= 1 /\ -1 <= d.2 <= 1.
Proof.
  intros Hperm Hp Hvalid He.
  apply (valid_moves_spec p valid Hvalid) in He as (d & k & Hd & Hk & He & _).
  apply (Piece_init_filled _ _ _ _ Hp) in Hd as (Hne & pos & v & Hpos & -> & _).
  apply Piece_init_fields in Hp as (Hc & _). rewrite Hc in He.
  rewrite Hperm in Hpos. apply elem_of_area_cells in Hpos.
  eexists _, k. split; [done |]. split; [done |]. split; [done |]. simpl. lia.
Qed.

Lemma shift_of_unit (k d : Z) : 1 <= k -> -1 <= d <= 1 -> shift_of (k * d) = d.
Proof.
  intros Hk Hd. unfold shift_of.
  assert (d = -1 \/ d = 0 \/ d = 1) as [-> | [-> | ->]] by lia.
  - rewrite (proj2 (Z.ltb_ge _ _)) by lia. by rewrite (proj2 (Z.eqb_neq _ _)) by lia.
  - rewrite (proj2 (Z.ltb_ge _ _)) by lia. by rewrite (proj2 (Z.eqb_eq _ _)) by lia.
  - by rewrite (proj2 (Z.ltb_lt _ _)) by lia.
Qed.

(** C5, as the code has it. For a piece on a strictly interior anchor and a
    reachable end anchor that is strictly interior too and is not (1, 1),
    [check_obstruction] returns, and it returns True exactly when some cell
    of the footprint meets, at a step strictly before its own destination, a
    place outside the footprint that holds a stone. The step that lands a
    cell on its own destination is never tested; a place of the destination
    footprint does block when it lies strictly inside the path of another
    cell. *)
Theorem check_obstruction_verdict
        (area_order : coord -> list coord) (g : GessGame) (c e : coord)
        (p : Piece) (valid : gset coord) :
  wf_board (_game_board g) ->
  area_order c ≡ₚ area_cells c ->
  1 <= c.1 <= 18 -> 1 <= c.2 <= 18 ->
  Piece_init area_order c (_game_board g) = Ok p ->
  valid_moves p = Ok valid -> e ∈ valid ->
  1 <= e.1 <= 18 -> 1 <= e.2 <= 18 -> e ≠ (1, 1) ->
  exists b, check_obstruction g c.1 c.2 e.1 e.2 p = Ok b /\
            (b = true <-> blocked (_game_board g) c e).
Proof.
  intros Hwf Hperm Hc1 Hc2 Hp Hvalid He He1 He2 Hne.
  destruct (valid_moves_direction _ _ _ _ _ _ Hperm Hp Hvalid He)
    as (d & k & Hk & -> & Hd & Hd1 & Hd2).
  apply Piece_init_fields in Hp as (_ & _ & _ & Harea & _).
  unfold check_obstruction, get_area, blocked. cbv zeta. rewrite Harea.
  unfold stepped in *. cbn [fst snd] in *.
  replace (c.1 + k * d.1 - c.1) with (k * d.1) by lia.
  replace (c.2 + k * d.2 - c.2) with (k * d.2) by lia.
  rewrite !shift_of_unit by done.
  replace (shift_of (k * d.1), shift_of (k * d.2)) with d
    by (rewrite !shift_of_unit by done; by destruct d).
  assert (Hmax : Z.max (Z.abs (k * d.1)) (Z.abs (k * d.2)) = k).
  { destruct d as [dx dy]. simpl in *.
    assert (dx ≠ 0 \/ dy ≠ 0) by (destruct (decide (dx = 0)); [right; congruence | auto]).
    nia. }
  rewrite Hmax.
  assert (Hk17 : k <= 17) by (destruct d as [dx dy]; simpl in *;
    assert (dx ≠ 0 \/ dy ≠ 0) by (destruct (decide (dx = 0)); [right; congruence | auto]);
    nia).
  replace (d.1, d.2) with d by (by destruct d).
  destruct (scan_points_spec (_game_board g) (area_order c) d k Hd) with
    (points := area_order c) (check := (0, 0)) as (b & Hb & Hiff).
  { lia. }
  { rewrite Hperm. apply NoDup_area_cells. }
  { intros point j Hpoint Hj. right.
    rewrite Hperm in Hpoint. apply elem_of_area_cells in Hpoint.
    apply board_get_in_grid; [done |]. unfold in_grid, stepped. simpl.
    destruct d as [dx dy]. simpl in *. nia. }
  { intros point Hhead. apply head_Some_elem_of in Hhead.
    rewrite Hperm in Hhead. apply elem_of_area_cells in Hhead.
    unfold stepped. intros [= Hx Hy]. apply Hne. destruct c; simpl in *. f_equal; lia. }
  exists b. split; [exact Hb |]. rewrite Hiff. unfold hit, stepped.
  split; intros (cell & j & Hcell & Hj & Hout & Hstone); exists cell, j.
  - rewrite Hperm in Hcell, Hout. done.
  - rewrite Hperm. done.
Qed.

Lemma check_obstruction_verdict_witness :
  exists p valid b,
    Piece_init area_cells (5, 5) board_two_stones_target = Ok p /\
    valid_moves p = Ok valid /\ (7, 5) ∈ valid /\
    check_obstruction (mkGame UNFINISHED BLACK board_two_stones_target) 5 5 7 5 p = Ok b /\
    (b = true <-> blocked board_two_stones_target (5, 5) (7, 5)).
Proof.
  set (g := mkGame UNFINISHED BLACK board_two_stones_target).
  destruct (Piece_init area_cells (5, 5) board_two_stones_target) as [p | |] eqn:E;
    [| vm_compute in E; discriminate ..].
  assert (Hp : _unlimited p = true /\ _center p = (5, 5) /\ (1, 0) ∈ _filled p).
  { vm_compute in E. injection E as <-. repeat split. }
  destruct Hp as (Hun & Hcen & Hd).
  destruct (valid_moves_returns p) as [valid Hvalid].
  { by apply Piece_init_fields in E as (_ & _ & _ & _ & _ & H0 & _). }
  assert (Hin : (7, 5) ∈ valid).
  { apply (valid_moves_spec p valid Hvalid). exists (1, 0), 2.
    rewrite Hcen, Hun. repeat split; [done | lia |].
    intros j Hj. assert (j = 0 \/ j = 1) as [-> | ->] by lia; reflexivity. }
  assert (Hwf : wf_board (_game_board g)).
  { refine (bool_decide_unpack _ _). vm_compute. exact I. }
  destruct (check_obstruction_verdict area_cells g (5, 5) (7, 5) p valid Hwf
              (reflexivity _)) as (b & Hb & Hiff);
    [simpl; lia | simpl; lia | exact E | exact Hvalid | exact Hin
    | simpl; lia | simpl; lia | discriminate |].
  exists p, valid, b. split; [reflexivity |]. split; [exact Hvalid |].
  split; [exact Hin |]. split; [exact Hb | exact Hiff].
Defined.

(** C5 as stated fails: the two boards differ only on (7, 5), the
    destination of the footprint cell (5, 5) for the slide from (5, 5) to
    (7, 5), and the verdicts differ, since (7, 5) lies strictly inside the
    path of the footprint cell (6, 5). *)
Lemma check_obstruction_destination_matters :
  (p ← Piece_init area_cells (5, 5) board_two_stones;
   valid ← valid_moves p;
   b ← check_obstruction (mkGame UNFINISHED BLACK board_two_stones) 5 5 7 5 p;
   Ok (bool_decide ((7, 5) ∈ valid), b)) = Ok (true, false) /\
  (p ← Piece_init area_cells (5, 5) board_two_stones_target;
   valid ← valid_moves p;
   b ← check_obstruction (mkGame UNFINISHED BLACK board_two_stones_target) 5 5 7 5 p;
   Ok (bool_decide ((7, 5) ∈ valid), b)) = Ok (true, true) /\
  board_set board_two_stones (5 + (7 - 5), 5 + (5 - 5)) White = Ok board_two_stones_target.
Proof. repeat split; vm_compute; reflexivity. Qed.

(** A reachable target whose footprint leaves the grid: with the target on
    row 19 the walk reads row 20, and the call raises IndexError. *)
Lemma check_obstruction_off_board :
  (p ← Piece_init area_cells (17, 5) board_low_pair;
   valid ← valid_moves p;
   if decide ((19, 5) ∈ valid)
   then check_obstruction (mkGame UNFINISHED BLACK board_low_pair) 17 5 19 5 p
   else Ok false) = Raise IndexError.
Proof. vm_compute. reflexivity. Qed.

(** The target (1, 1): the corner cell of the piece
    lands on (0, 0), the initial value of [check_x, check_y]; when that cell
    is iterated first its walk is skipped, and the stone on (1, 1) that
    stands in its way goes unnoticed. Iterated in another order the same
    slide is obstructed. *)
Lemma check_obstruction_first_cell_skipped :
  (p ← Piece_init area_cells (4, 4) board_diagonal;
   valid ← valid_moves p;
   b ← check_obstruction (mkGame UNFINISHED BLACK board_diagonal) 4 4 1 1 p;
   Ok (bool_decide ((1, 1) ∈ valid), b)) = Ok (true, false) /\
  (p ← Piece_init (fun c => reverse (area_cells c)) (4, 4) board_diagonal;
   valid ← valid_moves p;
   b ← check_obstruction (mkGame UNFINISHED BLACK board_diagonal) 4 4 1 1 p;
   Ok (bool_decide ((1, 1) ∈ valid), b)) = Ok (true, true) /\
  blocked board_diagonal (4, 4) (1, 1).
Proof.
  split; [vm_compute; reflexivity |]. split; [vm_compute; reflexivity |].
  exists (3, 3), 2. split; [apply elem_of_area_cells; simpl; lia |].
  split; [simpl; lia |]. split.
  - intros Hin. apply elem_of_area_cells in Hin.
    cbv [stepped shift_of] in Hin. simpl in Hin. lia.
  - exists White. split; [vm_compute; reflexivity | done].
Qed.

(** ** The border test of [make_move] *)

(** Rows 0 and 19 and column 19 are turned down. *)
Lemma border_guard_rejects (py_int : string -> option Z) (c : string) (x y : Z) :
  decode py_int c = Ok (x, y) -> x = 0 \/ x = 19 \/ y = 19 ->
  border_guard py_int c = Ok true.
Proof.
  unfold decode, border_guard, int_tail. destruct c as [| h rest]; [done |].
  cbn [py_head py_tail mbind result_bind].
  destruct (Board.locmap !! h) as [x' |] eqn:Hx; [| done].
  cbn [mbind result_bind].
  destruct (py_int rest) as [n |]; [| done]. cbn [mbind result_bind].
  intros [= <- <-] Hb. apply locmap_range in Hx as (Hr & H0 & H19).
  destruct (decide (h = "a"%char)); [done |].
  destruct (decide (h = "t"%char)); [done |].
  destruct Hb as [Hb | [Hb | Hb]]; [by apply H0 in Hb | by apply H19 in Hb |].
  by rewrite (proj2 (Z.leb_le 20 n)) by lia.
Qed.

Lemma make_move_rejects_guarded
      (py_int : string -> option Z) (area_order : coord -> list coord)
      (g : GessGame) (start_center end_center : string) :
  (border_guard py_int start_center = Ok true ->
   make_move py_int area_order g start_center end_center = Ok (false, g)) /\
  (border_guard py_int start_center = Ok false ->
   border_guard py_int end_center = Ok true ->
   make_move py_int area_order g start_center end_center = Ok (false, g)).
Proof.
  unfold make_move. split.
  - intros ->. by destruct (decide (_game_state g ≠ UNFINISHED)).
  - intros -> ->. by destruct (decide (_game_state g ≠ UNFINISHED)).
Qed.

(** C2 fails on the opening position: "c1" decodes to (2, 0), a point of the
    border ring, and the move from there to "c2" is accepted. The guard
    compares the number with 0 and 20 before 1 is subtracted from it, so
    column 0 passes. *)
Theorem make_move_accepts_border_start :
  decode int_of_decimal "c1" = Ok (2, 0) /\
  (2, 0) ∈ Board.border /\
  border_guard int_of_decimal "c1" = Ok false /\
  (r ← make_move int_of_decimal area_cells new_game "c1" "c2"; Ok r.1) = Ok true.
Proof.
  split; [vm_compute; reflexivity |]. split.
  - apply elem_of_border. unfold in_grid. simpl. lia.
  - split; vm_compute; reflexivity.
Qed.

(** * Further properties of the three classes *)

(** ** Board: the border set and the letter map *)

(** X1. [get_border] is the outer ring of the 20x20 grid and nothing else:
    a point belongs to it exactly when it is an address of the grid with row
    or column 0 or 19. *)
Theorem get_border_ring (q : coord) :
  q ∈ Board.border <->
  0 <= q.1 < 20 /\ 0 <= q.2 < 20 /\ (q.1 = 0 \/ q.1 = 19 \/ q.2 = 0 \/ q.2 = 19).
Proof.
  rewrite elem_of_border. unfold in_grid. tauto.
Qed.

(** X2. [get_map] sends the letters "a" to "t", in order, to 0 to 19, and
    holds no other key. *)
Theorem get_map_letters (h : ascii) (x : Z) :
  Board.locmap !! h = Some x <->
  0 <= x <= 19 /\ h = ascii_of_N (Z.to_N (97 + x)).
Proof.
  split.
  - destruct h as [[] [] [] [] [] [] [] []]; vm_compute; intros [= <-];
      split; (split; discriminate) || reflexivity.
  - intros [Hx ->].
    assert (x = 0 \/ x = 1 \/ x = 2 \/ x = 3 \/ x = 4 \/ x = 5 \/ x = 6 \/ x = 7 \/
            x = 8 \/ x = 9 \/ x = 10 \/ x = 11 \/ x = 12 \/ x = 13 \/ x = 14 \/
            x = 15 \/ x = 16 \/ x = 17 \/ x = 18 \/ x = 19) as Hcases by lia.
    repeat (destruct Hcases as [-> | Hcases]; [vm_compute; reflexivity |]).
    subst x. vm_compute. reflexivity.
Qed.

(** ** make_move: what the border test lets through *)

(** X3. For a coordinate that decodes, the border test of [make_move] lets
    it through exactly when its row is in 1..18 and its column in 0..18: rows
    0 and 19 and column 19 are turned down, column 0 is not. *)
Theorem border_guard_admits (py_int : string -> option Z) (c : string) (x y : Z) :
  decode py_int c = Ok (x, y) ->
  (border_guard py_int c = Ok false <-> 1 <= x <= 18 /\ 0 <= y <= 18) /\
  (border_guard py_int c = Ok true <-> x = 0 \/ x = 19 \/ y < 0 \/ 19 <= y).
Proof.
  unfold decode, border_guard, int_tail. destruct c as [| h rest]; [done |].
  cbn [py_head py_tail mbind result_bind].
  destruct (Board.locmap !! h) as [x' |] eqn:Hx; [| done].
  cbn [mbind result_bind].
  destruct (py_int rest) as [n |]; [| done]. cbn [mbind result_bind].
  intros [= <- <-].
  pose proof (locmap_range _ _ Hx) as (Hr & H0 & H19).
  assert (Ha : h = "a"%char -> x' = 0) by (intros ->; vm_compute in Hx; congruence).
  assert (Ht : h = "t"%char -> x' = 19) by (intros ->; vm_compute in Hx; congruence).
  destruct (decide (h = "a"%char)) as [Hha | Hha].
  { specialize (Ha Hha). repeat split; intros; try done; lia. }
  destruct (decide (h = "t"%char)) as [Hht | Hht].
  { specialize (Ht Hht). repeat split; intros; try done; lia. }
  assert (x' ≠ 0) by (intros E; by apply H0 in E).
  assert (x' ≠ 19) by (intros E; by apply H19 in E).
  destruct (20 <=? n) eqn:Hn.
  { apply Z.leb_le in Hn. repeat split; intros; try done; lia. }
  apply Z.leb_gt in Hn.
  destruct (n <=? 0) eqn:Hn0.
  - apply Z.leb_le in Hn0. repeat split; intros; try done; lia.
  - apply Z.leb_gt in Hn0. repeat split; intros; try done; lia.
Qed.

Lemma border_guard_admits_witness :
  decode int_of_decimal "c1" = Ok (2, 0) /\
  (border_guard int_of_decimal "c1" = Ok false <-> 1 <= 2 <= 18 /\ 0 <= 0 <= 18).
Proof.
  assert (Hd : decode int_of_decimal "c1" = Ok (2, 0)) by (vm_compute; reflexivity).
  split; [exact Hd |].
  exact (proj1 (border_guard_admits int_of_decimal "c1" 2 0 Hd)).
Defined.

(** ** make_move: the exceptions of a running game *)

(** X4. On a game still running, an empty start coordinate raises
    IndexError, a start coordinate whose tail [int] cannot read raises
    ValueError (unless its letter is "a" or "t", which is answered False
    first), and a coordinate pair that passes both border tests raises
    KeyError when the start letter is not a key of the letter map. *)
Theorem make_move_raises
        (py_int : string -> option Z) (area_order : coord -> list coord)
        (g : GessGame) (h : ascii) (rest end_center : string) :
  _game_state g = UNFINISHED ->
  make_move py_int area_order g "" end_center = Raise IndexError /\
  (h ≠ "a"%char -> h ≠ "t"%char -> py_int rest = None ->
   make_move py_int area_order g (String h rest) end_center = Raise ValueError) /\
  (border_guard py_int (String h rest) = Ok false ->
   border_guard py_int end_center = Ok false ->
   Board.locmap !! h = None ->
   make_move py_int area_order g (String h rest) end_center = Raise KeyError).
Proof.
  intros Hst. unfold make_move.
  destruct (decide (_game_state g ≠ UNFINISHED)) as [Hn | _]; [done |].
  split; [done |]. split.
  - intros Ha Ht Hint. unfold border_guard, int_tail.
    cbn [py_head py_tail mbind result_bind].
    rewrite decide_False by done. rewrite decide_False by done.
    by rewrite Hint.
  - intros -> -> Hkey. cbn [mbind result_bind]. unfold decode.
    cbn [py_head mbind result_bind]. by rewrite Hkey.
Qed.

Lemma make_move_raises_witness :
  _game_state new_game = UNFINISHED /\
  make_move int_of_decimal area_cells new_game "" "c5" = Raise IndexError /\
  make_move int_of_decimal area_cells new_game "cx" "c5" = Raise ValueError /\
  make_move int_of_decimal area_cells new_game "z5" "c5" = Raise KeyError.
Proof.
  split; [reflexivity |].
  destruct (make_move_raises int_of_decimal area_cells new_game "c" "x" "c5" eq_refl)
    as (H1 & H2 & _).
  destruct (make_move_raises int_of_decimal area_cells new_game "z" "5" "c5" eq_refl)
    as (_ & _ & H3).
  split; [exact H1 |]. split.
  - apply H2; [discriminate | discriminate | reflexivity].
  - apply H3; vm_compute; reflexivity.
Defined.

(** ** Piece: what [__init__] derives *)

(** X5. Whatever the order in which the nine cells are visited, [__init__]
    leaves in [_filled] exactly the eight unit directions whose cell next to
    the centre holds a stone (never the direction (0, 0)), and sets
    [_unlimited] exactly when the centre itself holds a stone. *)
Theorem Piece_init_attributes
        (area_order : coord -> list coord) (c : coord) (board : Grid) (p : Piece) :
  area_order c ≡ₚ area_cells c ->
  Piece_init area_order c board = Ok p ->
  (forall d, d ∈ _filled p <->
     d ≠ (0, 0) /\ -1 <= d.1 <= 1 /\ -1 <= d.2 <= 1 /\
     exists v, board_get board (c.1 + d.1, c.2 + d.2) = Ok v /\ v ≠ Empty) /\
  (_unlimited p = true <-> exists v, board_get board c = Ok v /\ v ≠ Empty).
Proof.
  intros Hperm Hp. split.
  - intros d. rewrite (Piece_init_filled _ _ _ _ Hp d). split.
    + intros (Hne & pos & v & Hpos & -> & Hv & Hs). split; [done |].
      rewrite Hperm in Hpos. apply elem_of_area_cells in Hpos. simpl.
      split; [lia |]. split; [lia |]. exists v. split; [| done].
      rewrite <- Hv. f_equal. destruct pos; simpl; f_equal; lia.
    + intros (Hne & H1 & H2 & v & Hv & Hs). split; [done |].
      exists (c.1 + d.1, c.2 + d.2), v. split.
      * rewrite Hperm. apply elem_of_area_cells. simpl. lia.
      * split; [destruct d; simpl; f_equal; lia | done].
  - apply Piece_init_fields in Hp as (_ & _ & _ & _ & _ & _ & v & Hv & ->).
    replace (c.1, c.2) with c in Hv by (by destruct c).
    rewrite bool_decide_eq_true. split.
    + intros Hne. eauto.
    + intros (v' & Hv' & Hne). congruence.
Qed.

Lemma Piece_init_attributes_witness :
  exists p, Piece_init area_cells (2, 2) initial_board = Ok p /\
            (0, 1) ∈ _filled p /\ _unlimited p = true.
Proof.
  destruct (Piece_init area_cells (2, 2) initial_board) as [p | |] eqn:E;
    [| vm_compute in E; discriminate ..].
  exists p. split; [reflexivity |].
  destruct (Piece_init_attributes area_cells (2, 2) initial_board p (reflexivity _) E)
    as [Hf Hu].
  split.
  - apply Hf. split; [discriminate |]. simpl. split; [lia |]. split; [lia |].
    exists Black. split; [vm_compute; reflexivity | discriminate].
  - apply Hu. exists Black. split; [vm_compute; reflexivity | discriminate].
Defined.

(** X6. [get_area_contents] returns exactly the set of the values found on
    the cells of the piece's area. *)
Theorem get_area_contents_exact (p : Piece) (types : gset Cell) :
  get_area_contents p = Ok types ->
  forall v, v ∈ types <->
            exists point, point ∈ _area p /\ board_get (_board p) point = Ok v.
Proof.
  unfold get_area_contents. intros H v.
  rewrite (surround_loop_spec _ _ _ _ H v). split.
  - intros [H0 | Hex]; [done | exact Hex].
  - intros Hex. by right.
Qed.

Lemma get_area_contents_exact_witness :
  exists p types, Piece_init area_cells (2, 2) initial_board = Ok p /\
                  get_area_contents p = Ok types /\ Black ∈ types /\ White ∉ types.
Proof.
  destruct (Piece_init area_cells (2, 2) initial_board) as [p | |] eqn:E;
    [| vm_compute in E; discriminate ..].
  assert (Hp : _area p = area_cells (2, 2) /\ _board p = initial_board).
  { by apply Piece_init_fields in E as (_ & _ & _ & Ha & Hb & _). }
  destruct Hp as [Ha Hb].
  destruct (get_area_contents p) as [types | |] eqn:Et;
    [| unfold get_area_contents in Et; rewrite Ha, Hb in Et;
       vm_compute in Et; discriminate ..].
  exists p, types. split; [reflexivity |]. split; [exact Et |].
  pose proof (get_area_contents_exact p types Et) as Hspec. split.
  - apply Hspec. exists (2, 2). rewrite Ha, Hb.
    split; [apply elem_of_area_cells; simpl; lia | vm_compute; reflexivity].
  - intros Hw. apply Hspec in Hw as (point & Hpoint & Hv).
    rewrite Ha in Hpoint. rewrite Hb in Hv.
    rewrite area_cells_unfold in Hpoint. simpl in Hpoint.
    rewrite !elem_of_cons, elem_of_nil in Hpoint.
    repeat destruct Hpoint as [Hpoint | Hpoint]; try done;
      subst point; vm_compute in Hv; discriminate.
Defined.

(** ** Piece: the targets [valid_moves] can return *)

(** X7. For every piece built by [__init__], [valid_moves] returns (its
    loop ends, the direction (0, 0) being excluded), and each target it
    returns lies a whole number [k >= 1] of steps from the centre along a
    filled direction, with row and column between 0 and 20 inclusive. *)
Theorem valid_moves_of_built_piece
        (area_order : coord -> list coord) (c : coord) (board : Grid) (p : Piece) :
  area_order c ≡ₚ area_cells c ->
  Piece_init area_order c board = Ok p ->
  exists S, valid_moves p = Ok S /\
    forall q, q ∈ S ->
      0 <= q.1 <= 20 /\ 0 <= q.2 <= 20 /\
      exists d k, d ∈ _filled p /\ 1 <= k /\ q = stepped c k d.
Proof.
  intros Hperm Hp.
  pose proof (Piece_init_fields _ _ _ _ Hp) as (Hc & _ & _ & _ & _ & H0 & _).
  destruct (valid_moves_returns p H0) as [S HS]. exists S. split; [done |].
  intros q Hq. apply (valid_moves_spec p S HS) in Hq as (d & k & Hd & Hk & Hq & Hb).
  rewrite Hc in *.
  assert (Hunit : -1 <= d.1 <= 1 /\ -1 <= d.2 <= 1).
  { apply (Piece_init_filled _ _ _ _ Hp) in Hd as (_ & pos & v & Hpos & -> & _).
    rewrite Hperm in Hpos. apply elem_of_area_cells in Hpos. simpl. lia. }
  assert (Hrange : 0 <= q.1 <= 20 /\ 0 <= q.2 <= 20).
  { destruct (_unlimited p).
    - specialize (Hb (k - 1)). apply in_bounds_spec in Hb; [| lia].
      subst q. unfold stepped in *. simpl in *. nia.
    - destruct Hb as [_ Hb]. apply in_bounds_spec in Hb. lia. }
  destruct Hrange as [Hr1 Hr2]. split; [exact Hr1 |]. split; [exact Hr2 |].
  exists d, k. split; [exact Hd |]. split; [exact Hk | exact Hq].
Qed.

Lemma valid_moves_of_built_piece_witness :
  exists p S, Piece_init area_cells (8, 2) initial_board = Ok p /\
              valid_moves p = Ok S /\
              forall q, q ∈ S -> 0 <= q.1 <= 20 /\ 0 <= q.2 <= 20.
Proof.
  destruct (Piece_init area_cells (8, 2) initial_board) as [p | |] eqn:E;
    [| vm_compute in E; discriminate ..].
  destruct (valid_moves_of_built_piece area_cells (8, 2) initial_board p
              (reflexivity _) E) as (S & HS & Hall).
  exists p, S. split; [reflexivity |]. split; [exact HS |].
  intros q Hq. destruct (Hall q Hq) as (H1 & H2 & _). split; assumption.
Defined.

(** X8. For a piece with a filled centre, [valid_moves] returns exactly the
    points [centre + k * d], [d] a filled direction and [k >= 1], such that
    every earlier point of the slide, from the centre itself to
    [centre + (k - 1) * d], has row and column strictly between 0 and 20;
    the point that first leaves that square is still returned. *)
Theorem valid_moves_unlimited (p : Piece) :
  _unlimited p = true ->
  (0, 0) ∉ _filled p ->
  exists S, valid_moves p = Ok S /\
    forall q, q ∈ S <->
      exists d k, d ∈ _filled p /\ 1 <= k /\ q = stepped (_center p) k d /\
        forall j, 0 <= j < k ->
          0 < (stepped (_center p) j d).1 < 20 /\ 0 < (stepped (_center p) j d).2 < 20.
Proof.
  intros Hun H0. destruct (valid_moves_returns p H0) as [S HS].
  exists S. split; [done |]. intros q.
  rewrite (valid_moves_spec p S HS q), Hun. split.
  - intros (d & k & Hd & Hk & Hq & Hb). exists d, k. repeat split; try done;
      apply in_bounds_spec, Hb; done.
  - intros (d & k & Hd & Hk & Hq & Hb). exists d, k. repeat split; try done.
    intros j Hj. apply in_bounds_spec. by apply Hb.
Qed.

Lemma valid_moves_unlimited_witness :
  exists p S, Piece_init area_cells (8, 2) initial_board = Ok p /\
              valid_moves p = Ok S /\ (19, 2) ∈ S /\ (20, 2) ∈ S /\ (21, 2) ∉ S.
Proof.
  destruct (Piece_init area_cells (8, 2) initial_board) as [p | |] eqn:E;
    [| vm_compute in E; discriminate ..].
  assert (Hp : _unlimited p = true /\ _center p = (8, 2) /\ (1, 0) ∈ _filled p).
  { vm_compute in E. injection E as <-. repeat split. }
  destruct Hp as (Hun & Hcen & Hd).
  assert (H0 : (0, 0) ∉ _filled p).
  { by apply Piece_init_fields in E as (_ & _ & _ & _ & _ & H0 & _). }
  destruct (valid_moves_unlimited p Hun H0) as (S & HS & Hspec).
  exists p, S. split; [reflexivity |]. split; [exact HS |].
  rewrite Hcen in Hspec. split; [| split].
  - apply Hspec. exists (1, 0), 11. repeat split; try done; intros; simpl; lia.
  - apply Hspec. exists (1, 0), 12. repeat split; try done; intros; simpl; lia.
  - intros Hin. apply Hspec in Hin as (d & k & Hd' & Hk & Hq & Hb).
    apply (Piece_init_filled _ _ _ _ E) in Hd' as (_ & pos & v & Hpos & -> & _).
    apply elem_of_area_cells in Hpos.
    unfold stepped in *. simpl in *. injection Hq as Hx Hy.
    destruct (Hb (k - 1)) as [Hb1 _]; [lia |]. nia.
Defined.

(** ** Piece.move at its edge: no displacement *)

(** Two 20x20 boards that read alike everywhere are the same board. *)
Lemma wf_board_ext (b1 b2 : Grid) :
  wf_board b1 -> wf_board b2 ->
  (forall q, in_grid q -> board_get b1 q = board_get b2 q) ->
  b1 = b2.
Proof.
  intros Hwf1 Hwf2 Hget. apply list_eq. intros i.
  destruct (decide (i < 20)%nat) as [Hi | Hi].
  - destruct (lookup_lt_is_Some_2 b1 i) as [r1 Hr1]; [destruct Hwf1; lia |].
    destruct (lookup_lt_is_Some_2 b2 i) as [r2 Hr2]; [destruct Hwf2; lia |].
    rewrite Hr1, Hr2. f_equal.
    pose proof (wf_board_row _ _ _ Hwf1 Hr1) as Hl1.
    pose proof (wf_board_row _ _ _ Hwf2 Hr2) as Hl2.
    apply list_eq. intros j.
    destruct (decide (j < 20)%nat) as [Hj | Hj].
    + specialize (Hget (Z.of_nat i, Z.of_nat j)). unfold board_get in Hget. simpl in Hget.
      destruct (py_getitem_in_range b1 (Z.of_nat i)) as (r1' & Hr1' & E1);
        [destruct Hwf1; lia |].
      destruct (py_getitem_in_range b2 (Z.of_nat i)) as (r2' & Hr2' & E2);
        [destruct Hwf2; lia |].
      rewrite Nat2Z.id in Hr1', Hr2'.
      assert (r1' = r1) as -> by congruence. assert (r2' = r2) as -> by congruence.
      rewrite E1, E2 in Hget. simpl in Hget.
      destruct (py_getitem_in_range r1 (Z.of_nat j)) as (v1 & Hv1 & F1); [lia |].
      destruct (py_getitem_in_range r2 (Z.of_nat j)) as (v2 & Hv2 & F2); [lia |].
      rewrite Nat2Z.id in Hv1, Hv2. rewrite F1, F2 in Hget.
      rewrite Hv1, Hv2. f_equal.
      assert (Hg : in_grid (Z.of_nat i, Z.of_nat j)) by (unfold in_grid; simpl; lia).
      specialize (Hget Hg). congruence.
    + rewrite !lookup_ge_None_2 by lia. done.
  - rewrite !lookup_ge_None_2; [done | destruct Hwf2; lia | destruct Hwf1; lia].
Qed.

(** X9. Moving a piece onto its own centre changes nothing: the three loops
    of [move] clear the nine cells and write back what they held, so the
    board is the one it started from, and the key set returned is the
    piece's own area. *)
Theorem move_to_own_centre (p : Piece) :
  wf_board (_board p) ->
  (forall c, c ∈ _area p -> in_grid c) ->
  exists new, move p (_x_coord p, _y_coord p) = Ok (_board p, new) /\
              forall q, q ∈ new <-> q ∈ _area p.
Proof.
  intros Hwf Harea.
  destruct (move_spec p (_x_coord p, _y_coord p) Hwf) as (b' & new & Hm & Hwf' & Hnew & Hget).
  { intros c Hc. cbn [fst snd].
    replace (c.1 + (_x_coord p - _x_coord p), c.2 + (_y_coord p - _y_coord p)) with c
      by (destruct c; simpl; f_equal; lia).
    split; by apply Harea. }
  cbn [fst snd] in Hnew, Hget.
  assert (Hback : forall q,
            back (_x_coord p - _x_coord p, _y_coord p - _y_coord p) q = q).
  { intros [qx qy]. unfold back. simpl. f_equal; lia. }
  assert (b' = _board p) as ->.
  { apply wf_board_ext; [done | done |]. intros q Hq.
    rewrite (Hget q Hq), Hback. by destruct (decide (q ∈ _area p)). }
  exists new. split; [exact Hm |]. intros q. by rewrite Hnew, Hback.
Qed.

Lemma move_to_own_centre_witness :
  exists p new, Piece_init area_cells (2, 2) initial_board = Ok p /\
                move p (2, 2) = Ok (initial_board, new) /\ (1, 1) ∈ new.
Proof.
  destruct (Piece_init area_cells (2, 2) initial_board) as [p | |] eqn:E;
    [| vm_compute in E; discriminate ..].
  pose proof (Piece_init_fields _ _ _ _ E) as (_ & Hx & Hy & Ha & Hb & _).
  simpl in Hx, Hy.
  assert (Hwf : wf_board (_board p)).
  { rewrite Hb. refine (bool_decide_unpack _ _). vm_compute. exact I. }
  destruct (move_to_own_centre p Hwf) as (new & Hm & Hnew).
  { intros c Hc. rewrite Ha in Hc. apply elem_of_area_cells in Hc.
    unfold in_grid. simpl in Hc. lia. }
  rewrite Hx, Hy, Hb in Hm.
  exists p, new. split; [reflexivity |]. split; [exact Hm |].
  apply Hnew. rewrite Ha. apply elem_of_area_cells. simpl. lia.
Defined.

(** ** check_obstruction at its edge: a slide of one step *)

Lemma walk_single_step (fuel : nat) (board : Grid) (space : list coord)
      (point sh check : coord) :
  stepped point 1 sh ∈ space \/ (exists v, board_get board (stepped point 1 sh) = Ok v) ->
  exists check',
    walk (S (S fuel)) board space point (stepped point 1 sh) sh check 1
    = Ok (LoopDone check').
Proof.
  intros Hread. rewrite walk_unfold.
  destruct (decide (check ≠ stepped point 1 sh)) as [Hne | Heq]; [| eauto].
  rewrite (bool_decide_eq_false_2 (stepped point 1 sh ≠ stepped point 1 sh))
    by (intros H; by apply H).
  destruct (decide (stepped point 1 sh ∉ space)) as [Hout | Hin].
  - destruct Hread as [Hin | [v Hv]]; [done |]. rewrite Hv.
    cbn [mbind result_bind]. rewrite andb_false_r.
    rewrite walk_unfold, decide_False by (intros H; by apply H). eauto.
  - cbn [mbind result_bind andb].
    rewrite walk_unfold, decide_False by (intros H; by apply H). eauto.
Qed.

Lemma scan_single_step (board : Grid) (space : list coord) (sh : coord)
      (points : list coord) (check : coord) :
  (forall point, point ∈ points ->
     stepped point 1 sh ∈ space \/ exists v, board_get board (stepped point 1 sh) = Ok v) ->
  scan_points board space sh sh check points = Ok false.
Proof.
  revert check. induction points as [| point rest IH]; intros check Hread; [done |].
  cbn [scan_points].
  replace (point.1 + sh.1, point.2 + sh.2) with (stepped point 1 sh)
    by (unfold stepped; f_equal; lia).
  change loop_fuel with (S (S 62)).
  destruct (walk_single_step 62 board space point sh check) as [check' ->];
    [apply Hread; left |].
  cbn [mbind result_bind]. apply IH. intros pt Hpt. apply Hread. by right.
Qed.

(** X10. A slide of at most one step along each axis between strictly
    interior anchors is never reported obstructed, whatever the board holds
    and in whatever order the cells are visited: each cell's walk reaches
    its destination at once, and the destination itself is never a reason to
    stop. *)
Theorem check_obstruction_single_step
        (area_order : coord -> list coord) (g : GessGame) (c e : coord) (p : Piece) :
  wf_board (_game_board g) ->
  area_order c ≡ₚ area_cells c ->
  Piece_init area_order c (_game_board g) = Ok p ->
  1 <= e.1 <= 18 -> 1 <= e.2 <= 18 ->
  -1 <= e.1 - c.1 <= 1 -> -1 <= e.2 - c.2 <= 1 ->
  check_obstruction g c.1 c.2 e.1 e.2 p = Ok false.
Proof.
  intros Hwf Hperm Hp He1 He2 Hd1 Hd2.
  apply Piece_init_fields in Hp as (_ & _ & _ & Harea & _).
  unfold check_obstruction, get_area. cbv zeta. rewrite Harea.
  assert (Hs : forall d, -1 <= d <= 1 -> shift_of d = d).
  { intros d Hd. replace d with (1 * d) at 1 by lia. by apply shift_of_unit. }
  rewrite !Hs by done.
  apply scan_single_step. intros point Hpoint. right.
  rewrite Hperm in Hpoint. apply elem_of_area_cells in Hpoint.
  apply board_get_in_grid; [done |]. unfold in_grid, stepped. simpl. lia.
Qed.

Lemma check_obstruction_single_step_witness :
  exists p, Piece_init area_cells (2, 2) initial_board = Ok p /\
            check_obstruction new_game 2 2 2 3 p = Ok false.
Proof.
  destruct (Piece_init area_cells (2, 2) initial_board) as [p | |] eqn:E;
    [| vm_compute in E; discriminate ..].
  exists p. split; [reflexivity |].
  assert (Hwf : wf_board (_game_board new_game)).
  { refine (bool_decide_unpack _ _). vm_compute. exact I. }
  apply (check_obstruction_single_step area_cells new_game (2, 2) (2, 3) p Hwf
           (reflexivity _) E); simpl; lia.
Defined.

(** ** check_win against rings of eight stones *)

(** X11. [check_win] never takes away a ring of eight: when it answers
    WHITE_WON black has no empty interior point with eight black neighbours,
    when it answers BLACK_WON white has none with eight white neighbours,
    and when both colours have one it answers UNFINISHED. *)
Theorem check_win_keeps_full_rings (g : GessGame) :
  wf_board (_game_board g) ->
  (check_win g = Ok WHITE_WON -> ~ ring_enclosed (_game_board g) Black) /\
  (check_win g = Ok BLACK_WON -> ~ ring_enclosed (_game_board g) White) /\
  (ring_enclosed (_game_board g) Black -> ring_enclosed (_game_board g) White ->
   check_win g = Ok UNFINISHED).
Proof.
  intros Hwf. unfold check_win.
  destruct (ring_scan_spec (_game_board g) Hwf) as (br & wr & -> & Hb & Hw).
  cbn [mbind result_bind fst snd].
  split; [| split].
  - intros H Hring. apply ring_enclosed_found, Hb in Hring. subst br. simpl in H.
    destruct wr; discriminate.
  - intros H Hring. apply ring_enclosed_found, Hw in Hring. subst wr.
    destruct br; simpl in H; discriminate.
  - intros H1 H2. apply ring_enclosed_found, Hb in H1. apply ring_enclosed_found, Hw in H2.
    by subst.
Qed.

Lemma check_win_keeps_full_rings_witness :
  wf_board (_game_board new_game) /\
  ring_enclosed initial_board Black /\ ring_enclosed initial_board White /\
  check_win new_game = Ok UNFINISHED.
Proof.
  assert (Hwf : wf_board (_game_board new_game)).
  { refine (bool_decide_unpack _ _). vm_compute. exact I. }
  assert (Hb : ring_enclosed initial_board Black).
  { apply ring_enclosed_b_spec. vm_compute. reflexivity. }
  assert (Hw : ring_enclosed initial_board White).
  { apply ring_enclosed_b_spec. vm_compute. reflexivity. }
  split; [exact Hwf |]. split; [exact Hb |]. split; [exact Hw |].
  destruct (check_win_keeps_full_rings new_game Hwf) as (_ & _ & H).
  exact (H Hb Hw).
Defined.

(** ** resign_game *)

(** X12. [resign_game] gives the win to the colour that is not to move,
    whatever the state was before (a game already won is overwritten too),
    and touches neither the board nor the player to move; resigning twice is
    resigning once, and after it every [make_move] returns False and changes
    nothing. *)
Theorem resign_game_ends_game
        (py_int : string -> option Z) (area_order : coord -> list coord)
        (g : GessGame) (start_center end_center : string) :
  _game_state (resign_game g)
    = (if decide (_current_player g = BLACK) then WHITE_WON else BLACK_WON) /\
  _current_player (resign_game g) = _current_player g /\
  _game_board (resign_game g) = _game_board g /\
  resign_game (resign_game g) = resign_game g /\
  make_move py_int area_order (resign_game g) start_center end_center
    = Ok (false, resign_game g).
Proof.
  unfold resign_game, make_move.
  destruct (decide (_current_player g = BLACK)) as [Hp | Hp]; simpl;
    rewrite ?decide_True by done; rewrite ?decide_False by done; done.
Qed.

(** ** make_move: what an accepted move was *)

(** The three colour tests of [make_move], read on the set of contents. *)
Lemma make_move_success_contents
      (py_int : string -> option Z) (area_order : coord -> list coord)
      (g g' : GessGame) (start_center end_center : string) :
  make_move py_int area_order g start_center end_center = Ok (true, g') ->
  exists s p types,
    decode py_int start_center = Ok s /\
    Piece_init area_order (s.1, s.2) (_game_board g) = Ok p /\
    get_area_contents p = Ok types /\
    stone_of (flip (_current_player g)) ∉ types.
Proof.
  unfold make_move. intros H.
  destruct (decide (_game_state g ≠ UNFINISHED)) as [| Hst]; [discriminate |].
  apply bind_Ok in H as ([] & Hsb & H); [discriminate |].
  apply bind_Ok in H as ([] & Heb & H); [discriminate |].
  apply bind_Ok in H as (s & Hs & H). cbv zeta in H.
  apply bind_Ok in H as (p & Hp & H).
  apply bind_Ok in H as (types & Ht & H).
  rewrite Ht in H.
  exists s, p, types. split; [done |]. split; [done |]. split; [done |].
  apply bind_Ok in H as ([] & _ & H); [discriminate |].
  apply bind_Ok in H as ([] & Hbw & H); [discriminate |].
  apply bind_Ok in H as ([] & Hwb & H); [discriminate |].
  clear H. destruct (_current_player g).
  - destruct (decide (BLACK = BLACK)) as [_ | Hn]; [| done].
    cbn [mbind result_bind] in Hbw. injection Hbw as Hbw.
    apply bool_decide_eq_false in Hbw. exact Hbw.
  - destruct (decide (WHITE = WHITE)) as [_ | Hn]; [| done].
    cbn [mbind result_bind] in Hwb. injection Hwb as Hwb.
    apply bool_decide_eq_false in Hwb. exact Hwb.
Qed.

(** X13. An accepted move never carried a stone of the player who was not
    to move, and it carried at least one stone of the mover next to the
    centre: no cell of the start footprint held the other colour, and some
    cell of it other than the centre held the mover's colour. *)
Theorem make_move_moves_own_stones
        (py_int : string -> option Z) (area_order : coord -> list coord)
        (g g' : GessGame) (start_center end_center : string) (s : coord) :
  area_order s ≡ₚ area_cells s ->
  decode py_int start_center = Ok s ->
  make_move py_int area_order g start_center end_center = Ok (true, g') ->
  (forall cell, cell ∈ area_cells s ->
     board_get (_game_board g) cell ≠ Ok (stone_of (flip (_current_player g)))) /\
  (exists cell, cell ∈ area_cells s /\ cell ≠ s /\
     board_get (_game_board g) cell = Ok (stone_of (_current_player g))).
Proof.
  intros Hperm Hs Hmove.
  destruct (make_move_success_contents _ _ _ _ _ _ Hmove)
    as (s' & p & types & Hs' & Hp & Ht & Hopp).
  rewrite Hs in Hs'. injection Hs' as <-.
  replace (s.1, s.2) with s in Hp by (by destruct s).
  pose proof (Piece_init_fields _ _ _ _ Hp) as (Hc & _ & _ & Harea & Hboard & _).
  assert (Hnone : forall cell, cell ∈ area_cells s ->
            board_get (_game_board g) cell ≠ Ok (stone_of (flip (_current_player g)))).
  { intros cell Hcell Hv. apply Hopp. unfold get_area_contents in Ht.
    apply (surround_loop_spec _ _ _ _ Ht). right. exists cell.
    rewrite Harea, Hperm, Hboard. done. }
  split; [exact Hnone |].
  apply make_move_success_inv in Hmove
    as (s' & e & p' & valid & _ & _ & _ & _ & _ & _ & Hs' & _ & Hp' & Hvalid & He & _).
  rewrite Hs in Hs'. injection Hs' as <-.
  replace (s.1, s.2) with s in Hp' by (by destruct s).
  rewrite Hp in Hp'. injection Hp' as <-.
  apply (valid_moves_spec p valid Hvalid) in He as (d & k & Hd & _).
  apply (Piece_init_filled _ _ _ _ Hp) in Hd as (Hne & pos & v & Hpos & -> & Hv & Hstone).
  rewrite Hperm in Hpos. exists pos. split; [done |]. split.
  - intros ->. apply Hne. f_equal; lia.
  - rewrite Hv. f_equal. specialize (Hnone pos Hpos). rewrite Hv in Hnone.
    destruct (_current_player g), v; simpl in *; congruence.
Qed.

Lemma make_move_moves_own_stones_witness :
  exists g', make_move int_of_decimal area_cells new_game "c3" "c4" = Ok (true, g') /\
    board_get (_game_board new_game) (1, 2) ≠ Ok White.
Proof.
  destruct (make_move int_of_decimal area_cells new_game "c3" "c4") as [[[] g'] | |] eqn:E;
    try (vm_compute in E; discriminate).
  exists g'. split; [reflexivity |].
  destruct (make_move_moves_own_stones int_of_decimal area_cells new_game g' "c3" "c4"
              (2, 2) (reflexivity _)) as [Hnone _];
    [vm_compute; reflexivity | exact E |].
  apply (Hnone (1, 2)). apply elem_of_area_cells. simpl. lia.
Defined.

(** ** make_move on well-formed input *)

Lemma py_getitem_readable {A : Type} (l : list A) (i : Z) :
  - Z.of_nat (length l) <= i < Z.of_nat (length l) ->
  exists k a, l !! k = Some a /\ py_getitem l i = Ok a.
Proof.
  intros Hi. destruct (decide (i < 0)).
  - rewrite py_getitem_wrapped by lia.
    destruct (py_getitem_in_range l (i + Z.of_nat (length l))) as (a & Ha & ->);
      [lia | eauto].
  - destruct (py_getitem_in_range l i) as (a & Ha & ->); [lia | eauto].
Qed.

Lemma py_setitem_readable {A : Type} (l : list A) (i : Z) (v : A) :
  - Z.of_nat (length l) <= i < Z.of_nat (length l) ->
  exists k, py_setitem l i v = Ok (<[k := v]> l).
Proof.
  intros Hi. unfold py_setitem. cbv zeta.
  destruct (i <? 0) eqn:Hneg.
  - apply Z.ltb_lt in Hneg.
    assert ((i + Z.of_nat (length l) <? 0) = false) as -> by (apply Z.ltb_ge; lia).
    assert ((Z.of_nat (length l) <=? i + Z.of_nat (length l)) = false) as ->
      by (apply Z.leb_gt; lia).
    simpl. eauto.
  - apply Z.ltb_ge in Hneg.
    assert ((i <? 0) = false) as -> by (apply Z.ltb_ge; lia).
    assert ((Z.of_nat (length l) <=? i) = false) as -> by (apply Z.leb_gt; lia).
    simpl. eauto.
Qed.

(** A write through any index Python accepts goes through and keeps the
    board 20x20. *)
Lemma board_set_readable (board : Grid) (p : coord) (v : Cell) :
  wf_board board -> -20 <= p.1 < 20 -> -20 <= p.2 < 20 ->
  exists board', board_set board p v = Ok board' /\ wf_board board'.
Proof.
  intros Hwf Hx Hy. unfold board_set.
  assert (Hlen : length board = 20%nat) by (by destruct Hwf).
  destruct (py_getitem_readable board p.1) as (k & row & Hrow & ->); [lia |].
  pose proof (wf_board_row _ _ _ Hwf Hrow) as Hr.
  cbn [mbind result_bind].
  destruct (py_setitem_readable row p.2 v) as (j & ->); [lia |].
  cbn [mbind result_bind].
  destruct (py_setitem_readable board p.1 (<[j:=v]> row)) as (k' & ->); [lia |].
  eexists. split; [done |]. split; [by rewrite length_insert |].
  apply Forall_insert; [by destruct Hwf | by rewrite length_insert].
Qed.

Lemma writes_return {A : Type} (tgt : A -> coord) (val : A -> Cell)
      (l : list A) (board : Grid) :
  wf_board board ->
  (forall x, x ∈ l -> -20 <= (tgt x).1 < 20 /\ -20 <= (tgt x).2 < 20) ->
  exists board', for_each (fun b x => board_set b (tgt x) (val x)) board l = Ok board' /\
                 wf_board board'.
Proof.
  revert board. induction l as [| x l IH]; intros board Hwf Htgt; [by exists board |].
  cbn [for_each]. destruct (Htgt x) as [Hx Hy]; [left |].
  destruct (board_set_readable board (tgt x) (val x) Hwf Hx Hy) as (b1 & -> & Hwf1).
  cbn [mbind result_bind]. apply IH; [done |]. intros. apply Htgt. by right.
Qed.

(** [move] returns, and keeps the board 20x20, as soon as the nine cells and
    their images are places Python can index. *)
Lemma move_returns (p : Piece) (location : coord) :
  wf_board (_board p) ->
  (forall c, c ∈ _area p ->
     (-20 <= c.1 < 20 /\ -20 <= c.2 < 20) /\
     (-20 <= c.1 + (location.1 - _x_coord p) < 20 /\
      -20 <= c.2 + (location.2 - _y_coord p) < 20)) ->
  exists board' new, move p location = Ok (board', new) /\ wf_board board'.
Proof.
  intros Hwf Harea. unfold move. cbv zeta.
  set (dx := location.1 - _x_coord p) in *. set (dy := location.2 - _y_coord p) in *.
  clearbody dx dy.
  destruct (for_each_returns
              (fun (m : gmap coord Cell) position =>
                 v ← board_get (_board p) position;
                 Ok (<[ (position.1 + dx, position.2 + dy) := v ]> m))
              (_area p) ∅) as [m Hm].
  { intros m c Hc. destruct (Harea c Hc) as [[Hx Hy] _].
    destruct (board_get_readable _ c Hwf Hx Hy) as [v ->].
    cbn [mbind result_bind]. eauto. }
  rewrite Hm. cbn [mbind result_bind].
  pose proof (mov_map_loop_spec (_board p) (dx, dy) _ _ _ Hm) as Hmap.
  assert (Hkey : forall c, c ∈ _area p -> exists v, m !! (c.1 + dx, c.2 + dy) = Some v).
  { intros c Hc. destruct (Harea c Hc) as [[Hx Hy] _].
    destruct (board_get_readable _ c Hwf Hx Hy) as [v Hv]. exists v.
    rewrite Hmap. cbn [fst snd].
    replace (c.1 + dx - dx, c.2 + dy - dy) with c by (destruct c; simpl; f_equal; lia).
    rewrite decide_True by done. by rewrite Hv. }
  destruct (writes_return (fun position : coord => position) (fun _ => Empty)
                          (_area p) (_board p) Hwf) as (b1 & -> & Hwf1).
  { intros c Hc. apply (Harea c Hc). }
  cbn [mbind result_bind].
  destruct (writes_return
              (fun position : coord => (position.1 + dx, position.2 + dy))
              (fun position : coord =>
                 default Empty (m !! (position.1 + dx, position.2 + dy)))
              (_area p) b1 Hwf1) as (b2 & Hb2 & Hwf2).
  { intros c Hc. apply (Harea c Hc). }
  erewrite for_each_ext; [rewrite Hb2 |].
  2:{ intros b c Hc. destruct (Hkey c Hc) as [v ->]. done. }
  cbn [mbind result_bind]. eauto.
Qed.

Lemma walk_returns (board : Grid) (space : list coord) (point sh check : coord) (n : Z) :
  sh ≠ (0, 0) -> 1 <= n <= 62 ->
  (forall k, 1 <= k <= n ->
     stepped point k sh ∈ space \/ exists v, board_get board (stepped point k sh) = Ok v) ->
  exists r, walk loop_fuel board space point (stepped point n sh) sh check 1 = Ok r /\
            forall check', r = LoopDone check' -> check' = stepped point n sh.
Proof.
  intros Hsh Hn Hread.
  destruct (decide (check = stepped point n sh)) as [-> | Hne].
  - change loop_fuel with (S 63). rewrite walk_unfold.
    rewrite decide_False by (intros H; by apply H).
    eexists. split; [done |]. by intros ? [= <-].
  - destruct (walk_spec board space point sh n Hsh Hread loop_fuel 1 check)
      as [[-> _] | [-> _]]; [lia | done | unfold loop_fuel; lia | |].
    + eexists. split; [done |]. by intros ? [=].
    + eexists. split; [done |]. by intros ? [= <-].
Qed.

Lemma scan_returns (board : Grid) (space : list coord) (sh : coord) (n : Z)
      (points : list coord) (check : coord) :
  sh ≠ (0, 0) -> 1 <= n <= 62 ->
  (forall point k, point ∈ points -> 1 <= k <= n ->
     stepped point k sh ∈ space \/ exists v, board_get board (stepped point k sh) = Ok v) ->
  exists b, scan_points board space (n * sh.1, n * sh.2) sh check points = Ok b.
Proof.
  intros Hsh Hn. revert check. induction points as [| point rest IH]; intros check Hread;
    [by exists false |].
  cbn [scan_points fst snd].
  change (point.1 + n * sh.1, point.2 + n * sh.2) with (stepped point n sh).
  destruct (walk_returns board space point sh check n Hsh Hn) as ([| check'] & -> & _).
  { intros k Hk. apply Hread; [left | done]. }
  - by exists true.
  - cbn [mbind result_bind]. apply IH. intros pt k Hpt. apply Hread. by right.
Qed.

(** Inside [make_move] the path check always comes back with a verdict. *)
Lemma check_obstruction_returns
      (area_order : coord -> list coord) (g : GessGame) (c e : coord)
      (p : Piece) (valid : gset coord) :
  wf_board (_game_board g) ->
  area_order c ≡ₚ area_cells c ->
  1 <= c.1 <= 18 -> 0 <= c.2 <= 18 ->
  Piece_init area_order c (_game_board g) = Ok p ->
  valid_moves p = Ok valid -> e ∈ valid ->
  1 <= e.1 <= 18 -> 0 <= e.2 <= 18 ->
  exists b, check_obstruction g c.1 c.2 e.1 e.2 p = Ok b.
Proof.
  intros Hwf Hperm Hc1 Hc2 Hp Hvalid He He1 He2.
  destruct (valid_moves_direction _ _ _ _ _ _ Hperm Hp Hvalid He)
    as (d & k & Hk & -> & Hd & Hd1 & Hd2).
  apply Piece_init_fields in Hp as (_ & _ & _ & Harea & _).
  unfold check_obstruction, get_area. cbv zeta. rewrite Harea.
  unfold stepped in *. cbn [fst snd] in *.
  replace (c.1 + k * d.1 - c.1) with (k * d.1) by lia.
  replace (c.2 + k * d.2 - c.2) with (k * d.2) by lia.
  rewrite !shift_of_unit by done.
  replace (d.1, d.2) with d by (by destruct d).
  assert (Hk18 : k <= 18) by (destruct d as [dx dy]; simpl in *;
    assert (dx ≠ 0 \/ dy ≠ 0) by (destruct (decide (dx = 0)); [right; congruence | auto]);
    nia).
  apply scan_returns; [done | lia |].
  intros point j Hpoint Hj. right.
  rewrite Hperm in Hpoint. apply elem_of_area_cells in Hpoint.
  apply board_get_readable; [done | |]; unfold stepped; simpl;
    destruct d as [dx dy]; simpl in *; nia.
Qed.

(** Every step of [make_move] goes through on a 20x20 board once both
    coordinates decode. *)
Lemma make_move_total
      (py_int : string -> option Z) (area_order : coord -> list coord)
      (g : GessGame) (start_center end_center : string) (s e : coord) :
  wf_board (_game_board g) ->
  (forall c, area_order c ≡ₚ area_cells c) ->
  decode py_int start_center = Ok s ->
  decode py_int end_center = Ok e ->
  exists r g', make_move py_int area_order g start_center end_center = Ok (r, g') /\
               wf_board (_game_board g').
Proof.
  intros Hwf Hperm Hs He. destruct s as [sx sy], e as [ex ey].
  unfold make_move. cbv zeta.
  destruct (decide (_game_state g ≠ UNFINISHED)); [by exists false, g |].
  destruct (border_guard_of_decode _ _ _ _ Hs) as (sb & -> & Hsb).
  cbn [mbind result_bind]. destruct sb; [by exists false, g |].
  destruct Hsb as [Hsx Hsy]; [done |].
  destruct (border_guard_of_decode _ _ _ _ He) as (eb & -> & Heb).
  cbn [mbind result_bind]. destruct eb; [by exists false, g |].
  destruct Heb as [Hex Hey]; [done |].
  rewrite Hs. cbn [mbind result_bind fst snd].
  destruct (Piece_init_returns area_order (sx, sy) (_game_board g)) as [p Hp];
    [done | apply Hperm | simpl; lia | simpl; lia |].
  rewrite Hp. cbn [mbind result_bind].
  pose proof (Piece_init_fields _ _ _ _ Hp) as (Hcen & Hx & Hy & Harea & Hboard & H0 & _).
  simpl in Hx, Hy.
  assert (Hcells : forall q, q ∈ _area p -> sx - 1 <= q.1 <= sx + 1 /\ sy - 1 <= q.2 <= sy + 1).
  { intros q Hq. rewrite Harea, Hperm in Hq. by apply elem_of_area_cells in Hq. }
  destruct (get_area_contents_returns p) as [types Ht].
  { by rewrite Hboard. }
  { intros q Hq. apply Hcells in Hq. lia. }
  rewrite Ht. cbn [mbind result_bind].
  destruct (valid_moves_returns p H0) as [valid Hvalid].
  destruct (decide (Black ∈ types)); cbn [mbind result_bind];
    [destruct (bool_decide (White ∈ types)) eqn:?; [by exists false, g |] |].
  all: destruct (decide (_current_player g = BLACK)); cbn [mbind result_bind];
    [destruct (bool_decide (White ∈ types)) eqn:?; [by exists false, g |] |].
  all: destruct (decide (_current_player g = WHITE)); cbn [mbind result_bind];
    [destruct (bool_decide (Black ∈ types)) eqn:?; [by exists false, g |] |].
  all: rewrite He; cbn [mbind result_bind fst snd]; rewrite Hvalid;
    cbn [mbind result_bind].
  all: destruct (decide ((ex, ey) ∉ valid)) as [| Hin]; [by exists false, g |];
    apply dec_stable in Hin.
  all: destruct (check_obstruction_returns area_order g (sx, sy) (ex, ey) p valid)
    as [obstructed Hobs]; try done; try apply Hperm.
  all: simpl in Hobs; rewrite Hobs; cbn [mbind result_bind];
    destruct obstructed; [by exists false, g |].
  all: destruct (move_returns p (ex, ey)) as (b2 & new & Hmove & Hwf2);
    [by rewrite Hboard
    | intros q Hq; apply Hcells in Hq; rewrite Hx, Hy; simpl; lia |].
  all: rewrite Hmove; cbn [mbind result_bind fst snd].
  all: destruct (clear_border_spec b2 new Hwf2) as (b3 & -> & Hwf3 & _);
    cbn [mbind result_bind].
  all: destruct (ring_scan_spec b3 Hwf3) as (br & wr & Hscan & _);
    unfold check_win; cbn [_game_board]; rewrite Hscan; cbn [mbind result_bind fst snd].
  all: destruct br, wr; cbn [negb];
    cbn [mbind result_bind]; repeat case_decide; try done;
    eexists _, _; (split; [reflexivity | exact Hwf3]).
Qed.

(** X14. Given a 20x20 board and two coordinates that decode, [make_move]
    always returns a boolean: no index leaves the lists (the column -1 of a
    piece selected on column 0 wraps to column 19), no key is missing from
    [mov_map], no loop runs on; and the board it leaves is again 20x20. *)
Theorem make_move_returns
        (py_int : string -> option Z) (area_order : coord -> list coord)
        (g : GessGame) (start_center end_center : string) (s e : coord) :
  wf_board (_game_board g) ->
  (forall c, area_order c ≡ₚ area_cells c) ->
  decode py_int start_center = Ok s ->
  decode py_int end_center = Ok e ->
  exists r g', make_move py_int area_order g start_center end_center = Ok (r, g') /\
               wf_board (_game_board g').
Proof. apply make_move_total. Qed.

Lemma make_move_returns_witness :
  wf_board (_game_board new_game) /\
  decode int_of_decimal "c1" = Ok (2, 0) /\
  exists r g', make_move int_of_decimal area_cells new_game "c1" "c2" = Ok (r, g') /\
               wf_board (_game_board g').
Proof.
  assert (Hwf : wf_board (_game_board new_game)).
  { refine (bool_decide_unpack _ _). vm_compute. exact I. }
  assert (Hs : decode int_of_decimal "c1" = Ok (2, 0)) by (vm_compute; reflexivity).
  assert (He : decode int_of_decimal "c2" = Ok (2, 1)) by (vm_compute; reflexivity).
  split; [exact Hwf |]. split; [exact Hs |].
  exact (make_move_returns int_of_decimal area_cells new_game "c1" "c2" (2, 0) (2, 1)
           Hwf (fun c => reflexivity _) Hs He).
Defined.

(** X15. Nothing cannot be moved: when the nine cells around the start
    coordinate are all empty, [make_move] returns False and changes nothing,
    wherever the end coordinate points. *)
Theorem make_move_empty_footprint
        (py_int : string -> option Z) (area_order : coord -> list coord)
        (g : GessGame) (start_center end_center : string) (s e : coord) :
  wf_board (_game_board g) ->
  (forall c, area_order c ≡ₚ area_cells c) ->
  decode py_int start_center = Ok s ->
  decode py_int end_center = Ok e ->
  (forall cell, cell ∈ area_cells s -> board_get (_game_board g) cell = Ok Empty) ->
  make_move py_int area_order g start_center end_center = Ok (false, g).
Proof.
  intros Hwf Hperm Hs He Hempty.
  destruct (make_move_total py_int area_order g start_center end_center s e
              Hwf Hperm Hs He) as ([] & g' & Hm & _).
  - exfalso. apply make_move_success_inv in Hm
      as (s' & e' & p & valid & _ & _ & _ & _ & _ & _ & Hs' & _ & Hp & Hvalid & Hin & _).
    rewrite Hs in Hs'. injection Hs' as <-.
    replace (s.1, s.2) with s in Hp by (by destruct s).
    apply (valid_moves_spec p valid Hvalid) in Hin as (d & k & Hd & _).
    apply (Piece_init_filled _ _ _ _ Hp) in Hd as (_ & pos & v & Hpos & _ & Hv & Hne).
    rewrite Hperm in Hpos. rewrite (Hempty pos Hpos) in Hv. congruence.
  - rewrite Hm. f_equal. f_equal. unfold make_move in Hm. ok_inv Hm; congruence.
Qed.

Lemma make_move_empty_footprint_witness :
  wf_board (_game_board new_game) /\
  make_move int_of_decimal area_cells new_game "j10" "j11" = Ok (false, new_game).
Proof.
  assert (Hwf : wf_board (_game_board new_game)).
  { refine (bool_decide_unpack _ _). vm_compute. exact I. }
  split; [exact Hwf |].
  apply (make_move_empty_footprint int_of_decimal area_cells new_game "j10" "j11"
           (9, 9) (9, 10) Hwf (fun c => reflexivity _));
    [vm_compute; reflexivity | vm_compute; reflexivity |].
  intros cell Hcell. rewrite area_cells_unfold in Hcell. simpl in Hcell.
  rewrite !elem_of_cons, elem_of_nil in Hcell.
  repeat destruct Hcell as [Hcell | Hcell]; try done; subst cell; vm_compute; reflexivity.
Defined.

(** X16. After an accepted move the stored state is the verdict of
    [check_win] on the board the move left. *)
Theorem make_move_state_is_verdict
        (py_int : string -> option Z) (area_order : coord -> list coord)
        (g g' : GessGame) (start_center end_center : string) :
  make_move py_int area_order g start_center end_center = Ok (true, g') ->
  check_win g' = Ok (_game_state g').
Proof.
  intros Hm. apply make_move_success_inv in Hm
    as (s & e & p & valid & moved & board' & state & _ & _ & _ & _ & _ & _ & _ & _ & _
        & _ & _ & Hstate & ->).
  exact Hstate.
Qed.

Lemma make_move_state_is_verdict_witness :
  exists g', make_move int_of_decimal area_cells new_game "c3" "c6" = Ok (true, g') /\
             check_win g' = Ok (_game_state g').
Proof.
  destruct (make_move int_of_decimal area_cells new_game "c3" "c6") as [[[] g'] | |] eqn:E;
    try (vm_compute in E; discriminate).
  exists g'. split; [reflexivity |].
  exact (make_move_state_is_verdict int_of_decimal area_cells new_game g' "c3" "c6" E).
Defined.

(** X17. An accepted move started on a row in 1..18 and a column in 0..18,
    ended on such a point too, and went a whole number [k >= 1] of steps
    along a row, a column or a diagonal: the end is never the start, never
    on row 0 or 19, never on column 19. *)
Theorem make_move_accepted_anchors
        (py_int : string -> option Z) (area_order : coord -> list coord)
        (g g' : GessGame) (start_center end_center : string) :
  (forall c, area_order c ≡ₚ area_cells c) ->
  make_move py_int area_order g start_center end_center = Ok (true, g') ->
  exists s e d k,
    decode py_int start_center = Ok s /\ decode py_int end_center = Ok e /\
    1 <= s.1 <= 18 /\ 0 <= s.2 <= 18 /\ 1 <= e.1 <= 18 /\ 0 <= e.2 <= 18 /\
    1 <= k /\ d ≠ (0, 0) /\ -1 <= d.1 <= 1 /\ -1 <= d.2 <= 1 /\
    e = stepped s k d.
Proof.
  intros Hperm Hm. apply make_move_success_inv in Hm
    as (s & e & p & valid & _ & _ & _ & _ & Hsb & Heb & Hs & He & Hp & Hvalid & Hin & _).
  destruct s as [sx sy], e as [ex ey]. cbn [fst snd] in *.
  destruct (border_guard_of_decode _ _ _ _ Hs) as (sb & Hsb' & Hsr).
  destruct (border_guard_of_decode _ _ _ _ He) as (eb & Heb' & Her).
  rewrite Hsb in Hsb'. injection Hsb' as <-. rewrite Heb in Heb'. injection Heb' as <-.
  destruct (Hsr eq_refl) as [Hs1 Hs2]. destruct (Her eq_refl) as [He1 He2].
  destruct (valid_moves_direction _ _ _ _ _ _ (Hperm (sx, sy)) Hp Hvalid Hin)
    as (d & k & Hk & Heq & Hd & Hd1 & Hd2).
  exists (sx, sy), (ex, ey), d, k. cbn [fst snd]. repeat split; try done; lia.
Qed.

Lemma make_move_accepted_anchors_witness :
  exists g' s e d k,
    make_move int_of_decimal area_cells new_game "c3" "c6" = Ok (true, g') /\
    decode int_of_decimal "c3" = Ok s /\ decode int_of_decimal "c6" = Ok e /\
    1 <= k /\ d ≠ (0, 0) /\ e = stepped s k d.
Proof.
  destruct (make_move int_of_decimal area_cells new_game "c3" "c6") as [[[] g'] | |] eqn:E;
    try (vm_compute in E; discriminate).
  destruct (make_move_accepted_anchors int_of_decimal area_cells new_game g' "c3" "c6"
              (fun c => reflexivity _) E)
    as (s & e & d & k & Hs & He & _ & _ & _ & _ & Hk & Hd & _ & _ & Heq).
  exists g', s, e, d, k. repeat split; try done.
Defined.

(** X18. A piece that holds a stone of the player who is not to move is
    turned down: on a 20x20 board, with both coordinates decoding,
    [make_move] returns False and changes nothing as soon as one of the nine
    cells around the start holds the other colour. *)
Theorem make_move_rejects_other_colour
        (py_int : string -> option Z) (area_order : coord -> list coord)
        (g : GessGame) (start_center end_center : string) (s e cell : coord) :
  wf_board (_game_board g) ->
  (forall c, area_order c ≡ₚ area_cells c) ->
  decode py_int start_center = Ok s ->
  decode py_int end_center = Ok e ->
  cell ∈ area_cells s ->
  board_get (_game_board g) cell = Ok (stone_of (flip (_current_player g))) ->
  make_move py_int area_order g start_center end_center = Ok (false, g).
Proof.
  intros Hwf Hperm Hs He Hcell Hv.
  destruct (make_move_total py_int area_order g start_center end_center s e
              Hwf Hperm Hs He) as ([] & g' & Hm & _).
  - exfalso. destruct (make_move_success_contents _ _ _ _ _ _ Hm)
      as (s' & p & types & Hs' & Hp & Ht & Hopp).
    rewrite Hs in Hs'. injection Hs' as <-.
    replace (s.1, s.2) with s in Hp by (by destruct s).
    apply Piece_init_fields in Hp as (_ & _ & _ & Harea & Hboard & _).
    apply Hopp. unfold get_area_contents in Ht.
    apply (surround_loop_spec _ _ _ _ Ht). right. exists cell.
    by rewrite Harea, Hperm, Hboard.
  - rewrite Hm. f_equal. f_equal. unfold make_move in Hm. ok_inv Hm; congruence.
Qed.

Lemma make_move_rejects_other_colour_witness :
  wf_board (_game_board new_game) /\
  make_move int_of_decimal area_cells new_game "c18" "c17" = Ok (false, new_game).
Proof.
  assert (Hwf : wf_board (_game_board new_game)).
  { refine (bool_decide_unpack _ _). vm_compute. exact I. }
  split; [exact Hwf |].
  apply (make_move_rejects_other_colour int_of_decimal area_cells new_game "c18" "c17"
           (2, 17) (2, 16) (2, 17) Hwf (fun c => reflexivity _));
    [vm_compute; reflexivity | vm_compute; reflexivity | | vm_compute; reflexivity].
  apply elem_of_area_cells. simpl. lia.
Defined.

(** ** Board.__init__: the opening position *)

Lemma elem_of_grid_points (q : coord) : in_grid q -> q ∈ grid_points.
Proof.
  intros [Hx Hy]. unfold grid_points.
  apply list_elem_of_bind. exists q.1. split; [| apply elem_of_py_range; lia].
  apply list_elem_of_bind. exists q.2. split; [| apply elem_of_py_range; lia].
  destruct q. simpl. left.
Qed.

(** X19. [Board()] builds a 20x20 grid on which white mirrors black: a
    cell holds a black stone exactly when the cell of the same row in the
    mirrored column holds a white one (the white stones are written through
    the negative index [-y - 1]); the border ring is empty, and a new game
    is UNFINISHED with black to move. *)
Theorem Board_init_mirror :
  Board.init = Ok initial_board /\ wf_board initial_board /\
  GessGame_init = Ok (mkGame UNFINISHED BLACK initial_board) /\
  forall q, in_grid q ->
    (board_get initial_board q = Ok Black <->
     board_get initial_board (q.1, 19 - q.2) = Ok White) /\
    (q ∈ Board.border -> board_get initial_board q = Ok Empty).
Proof.
  split; [reflexivity |]. split; [refine (bool_decide_unpack _ _); vm_compute; exact I |].
  split; [reflexivity |].
  assert (Hall : Forall (fun q : coord =>
            (board_get initial_board q = Ok Black <->
             board_get initial_board (q.1, 19 - q.2) = Ok White) /\
            (q ∈ Board.border -> board_get initial_board q = Ok Empty)) grid_points).
  { refine (bool_decide_unpack _ _). vm_compute. exact I. }
  rewrite Forall_forall in Hall. intros q Hq. apply Hall.
  apply list_elem_of_In. by apply elem_of_grid_points.
Qed.
